(** * Adaptive difficulty engine of EarTrainer (eartrainer_Cpp/example.py)

    Shallow embedding of the calibration and scheduling engine: the
    speed-credit helpers, the pool-adjacent-violators fit
    [IsotonicNonIncreasing.fit], the per-level [TempoCalibrator] and the
    bout-level [DrillHub].

    Conventions of the embedding:
    - Python floats are read as exact rationals [Q]; Python ints as [Z];
      comparisons of floats use [Qltb]/[Qle_bool]; equalities between
      float results are stated up to [Qeq] ([==]).
    - Python exceptions are the constructors of [exn]; every fallible
      operation returns a [result].
    - A Python [dict] is an association list in insertion order (the
      order in which [dict.keys()] iterates); assignment to an existing key
      keeps its position.
    - [random.random()] is an explicit argument [r] of [next].
    - Objects mutated in place (calibrators, bins, bout statistics) are
      threaded as explicit state. *)

From Stdlib Require Import ZArith QArith Qround Qabs List Lia Lqa Bool Sorted.
Import ListNotations.

Open Scope Q_scope.

(** ** Python prelude: exceptions, results, list and dict primitives *)

Inductive exn :=
| TypeError
| KeyError
| IndexError
| ValueError
| ZeroDivisionError
| OutOfFuel
| OutsideModel.

Inductive result (A : Type) :=
| Ok (a : A)
| Err (e : exn).
Arguments Ok {A} a.
Arguments Err {A} e.

Definition bind {A B} (m : result A) (k : A -> result B) : result B :=
  match m with
  | Ok a => k a
  | Err e => Err e
  end.

Notation "x <- m ;; k" := (bind m (fun x => k))
  (at level 61, m at next level, right associativity).

(** [a < b] on floats. *)
Definition Qltb (a b : Q) : bool := negb (Qle_bool b a).

(** Python's two-argument [min] and [max]: the first argument unless the
    second is strictly smaller (resp. larger). *)
Definition pymin (a b : Q) : Q := if Qltb b a then b else a.
Definition pymax (a b : Q) : Q := if Qltb a b then b else a.

(** True division [a / b]. *)
Definition pydiv (a b : Q) : result Q :=
  if Qeq_bool b 0 then Err ZeroDivisionError else Ok (a / b).

(** [l[i]] for a non-negative index. *)
Definition list_get {A} (l : list A) (i : nat) : result A :=
  match nth_error l i with
  | Some x => Ok x
  | None => Err IndexError
  end.

(** [l[-1]]. *)
Definition list_last {A} (l : list A) : result A :=
  match rev l with
  | x :: _ => Ok x
  | [] => Err IndexError
  end.

(** [l[i] = x]: raises [IndexError] out of range. *)
Fixpoint list_set {A} (l : list A) (i : nat) (x : A) : result (list A) :=
  match l, i with
  | [], _ => Err IndexError
  | _ :: l', O => Ok (x :: l')
  | y :: l', S i' => r <- list_set l' i' x ;; Ok (y :: r)
  end.

(** [del l[i]]: raises [IndexError] out of range. *)
Fixpoint list_del {A} (l : list A) (i : nat) : result (list A) :=
  match l, i with
  | [], _ => Err IndexError
  | _ :: l', O => Ok l'
  | y :: l', S i' => r <- list_del l' i' ;; Ok (y :: r)
  end.

(** [[f(x) for x in l]] where [f] may raise. *)
Fixpoint map_res {A B} (f : A -> result B) (l : list A) : result (list B) :=
  match l with
  | [] => Ok []
  | x :: l' => y <- f x ;; ys <- map_res f l' ;; Ok (y :: ys)
  end.

(** Python [sum] over floats. *)
Definition Qsum (l : list Q) : Q := fold_right Qplus 0 l.

(** Dictionary with keys [Z] in insertion order. *)
Definition dict (V : Type) := list (Z * V).

(** [d[k]]. *)
Fixpoint dict_get {V} (d : dict V) (k : Z) : result V :=
  match d with
  | [] => Err KeyError
  | (k', v) :: d' => if Z.eqb k k' then Ok v else dict_get d' k
  end.

(** [d[k] = v]: replaces in place when [k] is present, appends otherwise. *)
Fixpoint dict_set {V} (d : dict V) (k : Z) (v : V) : dict V :=
  match d with
  | [] => [(k, v)]
  | (k', v') :: d' => if Z.eqb k k' then (k', v) :: d' else (k', v') :: dict_set d' k v
  end.

Definition dict_keys {V} (d : dict V) : list Z := map fst d.

(** Stable insertion sort on a float key ([list.sort(key=...)] and
    [sorted(..., key=...)]): an element goes after every element whose key
    is not larger. *)
Fixpoint insert_by {A} (key : A -> Q) (x : A) (l : list A) : list A :=
  match l with
  | [] => [x]
  | y :: l' => if Qltb (key x) (key y) then x :: l else y :: insert_by key x l'
  end.

Definition sort_by {A} (key : A -> Q) (l : list A) : list A :=
  fold_left (fun acc x => insert_by key x acc) l [].

(** [sorted(l)] on ints. *)
Fixpoint insert_Z (x : Z) (l : list Z) : list Z :=
  match l with
  | [] => [x]
  | y :: l' => if Z.ltb x y then x :: l else y :: insert_Z x l'
  end.

Definition sorted_Z (l : list Z) : list Z := fold_left (fun acc x => insert_Z x acc) l [].

(** [min(l)] on a list of ints: [ValueError] on an empty list. *)
Definition min_Z (l : list Z) : result Z :=
  match l with
  | [] => Err ValueError
  | x :: l' => Ok (fold_left (fun m y => if Z.ltb y m then y else m) l' x)
  end.

(** [round(x)] on a float: round half to even. *)
Definition py_round (x : Q) : Z :=
  let f := Qfloor x in
  let d := x - inject_Z f in
  if Qltb d (1 # 2) then f
  else if Qltb (1 # 2) d then (f + 1)%Z
  else if Z.even f then f else (f + 1)%Z.

(** ** Constants and helpers (lines 11-35) *)

Definition T_MIN_SEC : Q := 1.
Definition T_MAX_SEC : Q := 9.

Definition clip01 (x : Q) : Q := pymax 0 (pymin 1 x).

Definition norm_tempo (t t_min t_max : Z) : result Q :=
  r <- pydiv (inject_Z (t - t_min)) (inject_Z (t_max - t_min)) ;;
  Ok (clip01 r).

Definition speed_credit_from_seconds (sec : Q) : Q :=
  if Qle_bool sec T_MIN_SEC then 1
  else if Qle_bool T_MAX_SEC sec then 0
  else 1 - (sec - T_MIN_SEC) / (T_MAX_SEC - T_MIN_SEC).

Definition seconds_from_speed_credit (credit : Q) : Q :=
  let credit := clip01 credit in
  T_MIN_SEC + (1 - credit) * (T_MAX_SEC - T_MIN_SEC).

(** ** Isotonic regression (lines 43-87) *)

Record IsoPoint := { value : Q; weight : Q }.

Definition block_mean (block : list IsoPoint) : Q :=
  let w := Qsum (map weight block) in
  if Qeq_bool w 0 then 0
  else Qsum (map (fun p => value p * weight p) block) / w.

(** One iteration of the [while i < len(blocks) - 1] loop per unit of fuel.
    [means] is updated exactly as the source does: [means[i]] is
    recomputed after a merge, and no entry of [means] is deleted. *)
Fixpoint pav_loop (fuel : nat) (blocks : list (list IsoPoint)) (means : list Q)
    (i : nat) : result (list (list IsoPoint)) :=
  match fuel with
  | O => Err OutOfFuel
  | S fuel' =>
    if Nat.ltb i (length blocks - 1) then
      mi <- list_get means i ;;
      mi1 <- list_get means (S i) ;;
      if Qltb mi mi1 then
        bi <- list_get blocks i ;;
        bi1 <- list_get blocks (S i) ;;
        blocks1 <- list_set blocks i (bi ++ bi1) ;;
        blocks2 <- list_del blocks1 (S i) ;;
        b <- list_get blocks2 i ;;
        means1 <- list_set means i (block_mean b) ;;
        let i' := if Nat.ltb 0 i then Nat.pred i else i in
        pav_loop fuel' blocks2 means1 i'
      else pav_loop fuel' blocks means (S i)
    else Ok blocks
  end.

(** [[[IsoPoint(values[i], weights[i])] for i in range(n)]]. *)
Definition init_blocks (values weights : list Q) (n : nat) : result (list (list IsoPoint)) :=
  map_res (fun i => v <- list_get values i ;; w <- list_get weights i ;;
                    Ok [{| value := v; weight := w |}]) (seq 0 n).

(** [IsotonicNonIncreasing.fit(values, weights)].  The loop decreases
    [2 * len(blocks) - i] at every iteration, so [2 * n + 1] iterations
    always suffice (lemma [pav_loop_enough_fuel] below). *)
Definition fit (values : list Q) (weights : option (list Q)) : result (list Q) :=
  let n := length values in
  let ws := match weights with None => repeat 1 n | Some ws => ws end in
  blocks <- init_blocks values ws n ;;
  let means := map block_mean blocks in
  blocks' <- pav_loop (2 * n + 1) blocks means 0 ;;
  Ok (flat_map (fun b => repeat (block_mean b) (length b)) blocks').

(** ** Binned calibrator per N (lines 93-165) *)

Record BinStat := { tempo_center : Z; ema_sec : Q; count : Z }.

Record TempoCalibrator := {
  tc_t_min : Z;
  tc_t_max : Z;
  n_bins : Z;
  ema_lambda : Q;
  anchor_fast_sec : Q;
  anchor_slow_sec : Q;
  bins : dict BinStat }.

(** The bin edges of [__post_init__]:
    [int(round(t_min + i * (t_max - t_min) / (n_bins - 1)))] for [i] in
    [range(n_bins)]. *)
Definition bin_edges (t_min t_max n_bins : Z) : result (list Z) :=
  map_res (fun i => x <- pydiv (inject_Z (Z.of_nat i * (t_max - t_min)))
                               (inject_Z (n_bins - 1)) ;;
                    Ok (py_round (inject_Z t_min + x)))
          (seq 0 (Z.to_nat n_bins)).

(** [TempoCalibrator(...)] followed by [__post_init__]. *)
Definition TempoCalibrator_new (t_min t_max n_bins : Z) (ema_lambda anchor_fast_sec
    anchor_slow_sec : Q) (bins : dict BinStat) : result TempoCalibrator :=
  bins' <- match bins with
           | [] => edges <- bin_edges t_min t_max n_bins ;;
                   Ok (fold_left (fun d t => dict_set d t
                         {| tempo_center := t; ema_sec := 5; count := 0 |}) edges bins)
           | _ => Ok bins
           end ;;
  Ok {| tc_t_min := t_min; tc_t_max := t_max; n_bins := n_bins;
        ema_lambda := ema_lambda; anchor_fast_sec := anchor_fast_sec;
        anchor_slow_sec := anchor_slow_sec; bins := bins' |}.

(** [TempoCalibrator(t_min=t_min, t_max=t_max, n_bins=n_bins)], the other
    fields at their defaults. *)
Definition TempoCalibrator_default (t_min t_max n_bins : Z) : result TempoCalibrator :=
  TempoCalibrator_new t_min t_max n_bins (1 # 10) (8 # 10) (95 # 10) [].

Definition nearest_center (self : TempoCalibrator) (tempo : Z) : result Z :=
  match dict_keys (bins self) with
  | [] => Err ValueError
  | k :: ks => Ok (fold_left (fun m c => if Z.ltb (Z.abs (c - tempo)) (Z.abs (m - tempo))
                                          then c else m) ks k)
  end.

Definition update (self : TempoCalibrator) (tempo : Z) (observed_sec : Q)
    : result TempoCalibrator :=
  c <- nearest_center self tempo ;;
  b <- dict_get (bins self) c ;;
  let lam := ema_lambda self in
  let b' := {| tempo_center := tempo_center b;
               ema_sec := (1 - lam) * ema_sec b + lam * observed_sec;
               count := count b + 1 |} in
  Ok {| tc_t_min := tc_t_min self; tc_t_max := tc_t_max self; n_bins := n_bins self;
        ema_lambda := ema_lambda self; anchor_fast_sec := anchor_fast_sec self;
        anchor_slow_sec := anchor_slow_sec self; bins := dict_set (bins self) c b' |}.

Definition smoothed_curve (self : TempoCalibrator) : result (list (Z * Q)) :=
  let centers := sorted_Z (dict_keys (bins self)) in
  values <- map_res (fun c => b <- dict_get (bins self) c ;; Ok (ema_sec b)) centers ;;
  weights <- map_res (fun c => b <- dict_get (bins self) c ;; Ok (Z.max 1 (count b))) centers ;;
  (* values[0] = min(values[0], anchor_fast_sec); weights[0] = max(weights[0], 50) *)
  v0 <- list_get values 0 ;;
  values <- list_set values 0 (pymin v0 (anchor_fast_sec self)) ;;
  w0 <- list_get weights 0 ;;
  weights <- list_set weights 0 (Z.max w0 50) ;;
  (* values[-1] = max(values[-1], anchor_slow_sec); weights[-1] = max(weights[-1], 50) *)
  vl <- list_last values ;;
  values <- list_set values (length values - 1) (pymax vl (anchor_slow_sec self)) ;;
  wl <- list_last weights ;;
  weights <- list_set weights (length weights - 1) (Z.max wl 50) ;;
  fitted <- fit values (Some (map inject_Z weights)) ;;
  Ok (combine centers fitted).

(** The [for i in range(len(centers) - 1)] loop of [predict_seconds]. *)
Fixpoint interp_loop (idx : list nat) (centers : list Z) (secs : list Q) (tempo : Z)
    : result Q :=
  match idx with
  | [] => list_last secs
  | i :: idx' =>
    c0 <- list_get centers i ;;
    c1 <- list_get centers (S i) ;;
    if Z.leb c0 tempo && Z.leb tempo c1 then
      s0 <- list_get secs i ;;
      s1 <- list_get secs (S i) ;;
      a <- pydiv (inject_Z (tempo - c0)) (inject_Z (c1 - c0)) ;;
      Ok ((1 - a) * s0 + a * s1)
    else interp_loop idx' centers secs tempo
  end.

Definition predict_seconds (self : TempoCalibrator) (tempo : Z) : result Q :=
  curve <- smoothed_curve self ;;
  let centers := map fst curve in
  let secs := map snd curve in
  c0 <- list_get centers 0 ;;
  if Z.leb tempo c0 then list_get secs 0 else
  cl <- list_last centers ;;
  if Z.leb cl tempo then list_last secs else
  interp_loop (seq 0 (length centers - 1)) centers secs tempo.

(** ** Drill menu and scoring (lines 171-354) *)

Record DrillCandidate := { N : Z; tempo : Z; pred_sec : Q; Fe : Q; diff : Q }.

(** Python values passed to the generated dataclass constructor. *)
#[warnings="-register-all"]
Inductive pyval :=
| PInt (z : Z)
| PFloat (q : Q)
| PTuple (l : list pyval).

(** A call [DrillCandidate(a1, ..., ak)]: the generated [__init__] takes exactly five
    positional arguments and raises [TypeError] on any other number.  The
    source only ever passes five values of the field types, or four values;
    five values of other kinds are outside this embedding. *)
Definition DrillCandidate_new (args : list pyval) : result DrillCandidate :=
  match args with
  | [PInt n; PInt t; PFloat p; PFloat fe; PFloat d] =>
      Ok {| N := n; tempo := t; pred_sec := p; Fe := fe; diff := d |}
  | _ => if Nat.eqb (length args) 5 then Err OutsideModel else Err TypeError
  end.

Record BoutStats := { n_items : Z; sum_score : Q }.

Definition BoutStats_new : BoutStats := {| n_items := 0; sum_score := 0 |}.

Definition avg_score (b : BoutStats) : Q :=
  if Z.ltb 0 (n_items b) then sum_score b / inject_Z (n_items b) else 0.

Record DrillHub := {
  F : Q;
  p_star : Q;
  wN : Q;
  t_min : Z;
  t_max : Z;
  N_max : Z;
  N_set : list Z;
  active_tempos : list Z;
  calibrators : dict TempoCalibrator;
  last_candidate : option DrillCandidate;
  bout : BoutStats;
  max_bpm_step : Z;
  allow_N_step : Z;
  last_N : option Z;
  last_tempo : option Z }.

(** [x or default] on an optional list argument. *)
Definition list_or (l : option (list Z)) (default : list Z) : list Z :=
  match l with
  | None | Some [] => default
  | Some l => l
  end.

(** [DrillHub.__init__]. *)
Definition DrillHub_new (F0 p_star0 wN0 : Q) (tempos N_set0 : option (list Z))
    (t_min0 t_max0 N_max0 : Z) : result DrillHub :=
  cals <- map_res (fun k => c <- TempoCalibrator_default t_min0 t_max0 10 ;;
                            Ok (Z.of_nat k, c))
                  (seq 1 (Z.to_nat N_max0)) ;;
  Ok {| F := F0; p_star := p_star0; wN := wN0; t_min := t_min0; t_max := t_max0;
        N_max := N_max0; N_set := list_or N_set0 [1; 2; 3; 4]%Z;
        active_tempos := list_or tempos [72; 84; 96]%Z;
        calibrators := cals; last_candidate := None; bout := BoutStats_new;
        max_bpm_step := 8; allow_N_step := 1; last_N := None; last_tempo := None |}.

(** [DrillHub(F)] with every other argument at its default. *)
Definition DrillHub_default (F0 : Q) : result DrillHub :=
  DrillHub_new F0 (85 # 100) (6 # 10) None None 60 200 8.

Section Hub.

Variable self : DrillHub.

Definition new_bout (F0 : option Q) (tempos : option (list Z)) : DrillHub :=
  {| F := match F0 with Some f => f | None => F self end;
     p_star := p_star self; wN := wN self; t_min := t_min self; t_max := t_max self;
     N_max := N_max self; N_set := N_set self;
     active_tempos := match tempos with Some l => l | None => active_tempos self end;
     calibrators := calibrators self; last_candidate := None; bout := BoutStats_new;
     max_bpm_step := max_bpm_step self; allow_N_step := allow_N_step self;
     last_N := None; last_tempo := None |}.

Definition q_difficulty (Nv tempo0 : Z) : result Q :=
  n <- (if Z.ltb 1 (N_max self)
        then pydiv (inject_Z (Nv - 1)) (inject_Z (N_max self - 1)) else Ok 0) ;;
  t <- norm_tempo tempo0 (t_min self) (t_max self) ;;
  Ok (clip01 (wN self * n + (1 - wN self) * t)).

Definition expected_fitness (Nv tempo0 : Z) : result (Q * Q) :=
  cal <- dict_get (calibrators self) Nv ;;
  pred <- predict_seconds cal tempo0 ;;
  let T_clip := speed_credit_from_seconds pred in
  q <- q_difficulty Nv tempo0 ;;
  let Fe0 := p_star self * (wN self * q + (1 - wN self) * T_clip) in
  Ok (pymax 0 (pymin 1 Fe0), q).

Definition tempos_with_rate_limits : list Z :=
  match last_tempo self with
  | None => active_tempos self
  | Some lt =>
    let allowed := filter (fun t => Z.leb (Z.abs (t - lt)) (max_bpm_step self) || Z.eqb t lt)
                          (active_tempos self) in
    match allowed with
    | [] => [lt]
    | _ => allowed
    end
  end.

(** [pred_sec < T_MIN_SEC or pred_sec > T_MAX_SEC]. *)
Definition infeasible (pred : Q) : bool := Qltb pred T_MIN_SEC || Qltb T_MAX_SEC pred.

(** Inner loop of [_make_menu], over the tempos for one [N]. *)
Fixpoint menu_tempos (Nv : Z) (ts : list Z) (menu : list DrillCandidate)
    : result (list DrillCandidate) :=
  match ts with
  | [] => Ok menu
  | t :: ts' =>
    cal <- dict_get (calibrators self) Nv ;;
    pred <- predict_seconds cal t ;;
    if infeasible pred then menu_tempos Nv ts' menu else
    fq <- expected_fitness Nv t ;;
    menu_tempos Nv ts' (menu ++ [{| N := Nv; tempo := t; pred_sec := pred;
                                    Fe := fst fq; diff := snd fq |}])
  end.

(** Outer loop of [_make_menu], over [N_set]. *)
Fixpoint menu_Ns (Ns : list Z) (menu : list DrillCandidate) : result (list DrillCandidate) :=
  match Ns with
  | [] => Ok menu
  | Nv :: Ns' => menu' <- menu_tempos Nv tempos_with_rate_limits menu ;; menu_Ns Ns' menu'
  end.

Definition make_menu : result (list DrillCandidate) :=
  menu <- menu_Ns (N_set self) [] ;;
  let menu := sort_by (fun c => Qabs (Fe c - F self)) menu in
  Ok (firstn 6 menu).

(** [while idx < len(menu_sorted) and menu_sorted[idx].Fe < target]. *)
Fixpoint insertion_index (l : list DrillCandidate) (target : Q) : nat :=
  match l with
  | [] => O
  | c :: l' => if Qltb (Fe c) target then S (insertion_index l' target) else O
  end.

Definition sample_from_menu (menu : list DrillCandidate) (r : Q) : result DrillCandidate :=
  match menu with
  | [] =>
    Nv <- match last_N self with Some n => Ok n | None => min_Z (N_set self) end ;;
    tempo0 <- match last_tempo self with Some t => Ok t | None => min_Z (active_tempos self) end ;;
    cal <- dict_get (calibrators self) Nv ;;
    pred <- predict_seconds cal tempo0 ;;
    fq <- expected_fitness Nv tempo0 ;;
    DrillCandidate_new [PInt Nv; PInt tempo0; PFloat pred; PFloat (fst fq); PFloat (snd fq)]
  | _ =>
    let menu_sorted := sort_by Fe menu in
    let target := F self in
    let idx := insertion_index menu_sorted target in
    let center := Nat.min idx (length menu_sorted - 1) in
    c0 <- list_get menu_sorted center ;;
    easier <- list_get menu_sorted (Nat.max 0 (center - 1)) ;;
    harder <- list_get menu_sorted (Nat.min (length menu_sorted - 1) (S center)) ;;
    let pick := if Qltb r (7 # 10) then c0
                else if Qltb r (9 # 10) then easier else harder in
    match last_N self with
    | Some lN =>
      if Z.ltb (allow_N_step self) (Z.abs (N pick - lN)) then
        (* DrillCandidate(self._last_N, pick.tempo,
             self.calibrators[self._last_N].predict_seconds(pick.tempo),
             self._expected_fitness(self._last_N, pick.tempo)) *)
        cal <- dict_get (calibrators self) lN ;;
        pred <- predict_seconds cal (tempo pick) ;;
        fq <- expected_fitness lN (tempo pick) ;;
        DrillCandidate_new [PInt lN; PInt (tempo pick); PFloat pred;
                            PTuple [PFloat (fst fq); PFloat (snd fq)]]
      else Ok pick
    | None => Ok pick
    end
  end.

(** [DrillHub.next()]: [r] is the value drawn by [random.random()]. *)
Definition next (r : Q) : result (DrillCandidate * DrillHub) :=
  candidates <- make_menu ;;
  cand <- sample_from_menu candidates r ;;
  Ok (cand, {| F := F self; p_star := p_star self; wN := wN self;
               t_min := t_min self; t_max := t_max self; N_max := N_max self;
               N_set := N_set self; active_tempos := active_tempos self;
               calibrators := calibrators self; last_candidate := Some cand;
               bout := bout self; max_bpm_step := max_bpm_step self;
               allow_N_step := allow_N_step self;
               last_N := Some (N cand); last_tempo := Some (tempo cand) |}).

Definition feedback (correct : bool) (observed_sec : Q) : result DrillHub :=
  match last_candidate self with
  | None => Ok self
  | Some c =>
    cal <- dict_get (calibrators self) (N c) ;;
    cal' <- update cal (tempo c) observed_sec ;;
    let T_clip := speed_credit_from_seconds observed_sec in
    let per_item_score := (if correct then 1 else 0) * T_clip in
    Ok {| F := F self; p_star := p_star self; wN := wN self;
          t_min := t_min self; t_max := t_max self; N_max := N_max self;
          N_set := N_set self; active_tempos := active_tempos self;
          calibrators := dict_set (calibrators self) (N c) cal';
          last_candidate := last_candidate self;
          bout := {| n_items := n_items (bout self) + 1;
                     sum_score := sum_score (bout self) + per_item_score |};
          max_bpm_step := max_bpm_step self; allow_N_step := allow_N_step self;
          last_N := last_N self; last_tempo := last_tempo self |}
  end.

(** [DrillHub.update()]. *)
Definition hub_update : BoutStats := bout self.

End Hub.

(** ** Specification-side vocabulary *)

(** [fit[i] >= fit[i+1]] for every adjacent pair. *)
Fixpoint noninc_b (l : list Q) : bool :=
  match l with
  | a :: ((b :: _) as l') => Qle_bool b a && noninc_b l'
  | _ => true
  end.

(** Weighted sum of squared deviations [sum_i w_i (y_i - v_i)^2]. *)
Fixpoint sse (values weights fitted : list Q) : Q :=
  match values, weights, fitted with
  | v :: vs, w :: ws, y :: ys => w * ((y - v) * (y - v)) + sse vs ws ys
  | _, _, _ => 0
  end.

(** ** Concrete runs used by the examples below *)

(** The value of a call that returned, or [d] if it raised. *)
Definition unwrap_or {A} (d : A) (r : result A) : A :=
  match r with
  | Ok a => a
  | Err _ => d
  end.

Definition empty_calibrator : TempoCalibrator :=
  {| tc_t_min := 60; tc_t_max := 200; n_bins := 0; ema_lambda := 0;
     anchor_fast_sec := 0; anchor_slow_sec := 0; bins := [] |}.

Definition empty_candidate : DrillCandidate :=
  {| N := 0; tempo := 0; pred_sec := 0; Fe := 0; diff := 0 |}.

Definition empty_hub : DrillHub :=
  {| F := 0; p_star := 0; wN := 0; t_min := 60; t_max := 200; N_max := 0; N_set := [];
     active_tempos := []; calibrators := []; last_candidate := None; bout := BoutStats_new;
     max_bpm_step := 8; allow_N_step := 1; last_N := None; last_tempo := None |}.

(** [DrillHub(F=0.5)], all other arguments at their defaults. *)
Definition cold_hub : DrillHub := unwrap_or empty_hub (DrillHub_default (1 # 2)).

(** Its level-1 calibrator. *)
Definition cold_calibrator : TempoCalibrator :=
  unwrap_or empty_calibrator (dict_get (calibrators cold_hub) 1).

(** [cold_hub] after one [next()] with [random.random() = 0.5]. *)
Definition hub_after_next : DrillHub :=
  snd (unwrap_or (empty_candidate, empty_hub) (next cold_hub (1 # 2))).

(** [hub_after_next] after [feedback(True, 1.5)]. *)
Definition hub_feedback_1 : DrillHub :=
  unwrap_or empty_hub (feedback hub_after_next true (3 # 2)).

(** [hub_feedback_1] after a second [feedback(True, 1.5)], with no [next()] in between. *)
Definition hub_feedback_2 : DrillHub :=
  unwrap_or empty_hub (feedback hub_feedback_1 true (3 # 2)).

(** [DrillHub(F=0.1, tempos=[80, 88, 96])] after one [next()] with
    [random.random() = 0.5]. *)
Definition hub_80 : DrillHub :=
  snd (unwrap_or (empty_candidate, empty_hub)
         (h <- DrillHub_new (1 # 10) (85 # 100) (6 # 10) (Some [80; 88; 96]%Z) None 60 200 8 ;;
          next h (1 # 2))).

(** [hub_80] after a second [next()] with [random.random() = 0.95]. *)
Definition hub_80_next : DrillCandidate * DrillHub :=
  unwrap_or (empty_candidate, empty_hub) (next hub_80 (95 # 100)).

(** ** Vocabulary of the further properties *)

(** Weighted sum [sum_i w_i * y_i]. *)
Fixpoint wsum (weights ys : list Q) : Q :=
  match weights, ys with
  | w :: ws, y :: ys' => w * y + wsum ws ys'
  | _, _ => 0
  end.

(** The bin [__post_init__] creates at centre [t]. *)
Definition fresh_bin (t : Z) : BinStat := {| tempo_center := t; ema_sec := 5; count := 0 |}.

(** One step of the [min(..., key=lambda c: abs(c - tempo))] scan of [nearest_center]. *)
Definition nc_step (tempo : Z) (m c : Z) : Z :=
  if Z.ltb (Z.abs (c - tempo)) (Z.abs (m - tempo)) then c else m.

(** What [_make_menu] puts in a candidate: a level of [Ns], a tempo of
    [ts], a feasible predicted time and fitness and difficulty in [0, 1]. *)
Definition menu_entry (h : DrillHub) (Ns ts : list Z) (c : DrillCandidate) : Prop :=
  In (N c) Ns /\ In (tempo c) ts /\ T_MIN_SEC <= pred_sec c <= T_MAX_SEC /\
  0 <= Fe c <= 1 /\ 0 <= diff c <= 1.

(** Bout statistics as the hub keeps them: the score sum lies between 0
    and the item count. *)
Definition bout_ok (b : BoutStats) : Prop :=
  (0 <= n_items b)%Z /\ 0 <= sum_score b <= inject_Z (n_items b).

(** [TempoCalibrator(t_min=t, t_max=t, n_bins=10)]: all ten bin edges
    round to [t], so it has a single bin. *)
Definition flat_calibrator (t : Z) : TempoCalibrator :=
  {| tc_t_min := t; tc_t_max := t; n_bins := 10; ema_lambda := 1 # 10;
     anchor_fast_sec := 8 # 10; anchor_slow_sec := 95 # 10; bins := [(t, fresh_bin t)] |}.

(** [IsotonicNonIncreasing.fit([1.0, 2.0, 0.0], [1.0, 1.0, 1.0])]. *)
Definition fit_1_2_0 : list Q := unwrap_or [] (fit [1; 2; 0] (Some [1; 1; 1])).

(** [DrillHub(F=0.5, N_set=[9])]: level 9 has no calibrator. *)
Definition hub_level_9 : DrillHub :=
  unwrap_or empty_hub (DrillHub_new (1 # 2) (85 # 100) (6 # 10) None (Some [9]%Z) 60 200 8).

(** The candidate and hub of [cold_hub.next()] with [random.random() = 0.5]. *)
Definition first_next : DrillCandidate * DrillHub :=
  unwrap_or (empty_candidate, empty_hub) (next cold_hub (1 # 2)).

(** ** Lemmas on the Python primitives *)


Lemma list_get_nth {A} (l : list A) i d :
  (i < length l)%nat -> list_get l i = Ok (nth i l d).
Proof. intros H. unfold list_get. now rewrite nth_error_nth' with (d := d) by exact H. Qed.

Lemma list_get_In {A} (l : list A) i x : list_get l i = Ok x -> In x l.
Proof.
  unfold list_get. destruct (nth_error l i) eqn:E; intros H; inversion H; subst.
  eapply nth_error_In; eauto.
Qed.

Lemma list_set_ok {A} (l : list A) i x :
  (i < length l)%nat -> exists l', list_set l i x = Ok l' /\ length l' = length l.
Proof.
  revert i. induction l as [|a l IH]; intros [|i]; simpl; intros H; try lia.
  - exists (x :: l). split; reflexivity.
  - destruct (IH i) as [l' [E L]]; [lia|]. rewrite E. simpl.
    exists (a :: l'). split; [reflexivity | simpl; lia].
Qed.

Lemma list_del_ok {A} (l : list A) i :
  (i < length l)%nat -> exists l', list_del l i = Ok l' /\ length l' = (length l - 1)%nat.
Proof.
  revert i. induction l as [|a l IH]; intros [|i]; simpl; intros H; try lia.
  - exists l. split; [reflexivity | lia].
  - destruct (IH i) as [l' [E L]]; [lia|]. rewrite E. simpl. exists (a :: l').
    split; [reflexivity | simpl; lia].
Qed.

Lemma nth_map_seq (f : nat -> Q) n j :
  (j < n)%nat -> nth j (map f (seq 0 n)) 0 = f j.
Proof.
  intros H. rewrite (nth_indep _ 0 (f 0%nat)) by (rewrite length_map, length_seq; lia).
  rewrite map_nth, seq_nth by lia. reflexivity.
Qed.

(** ** Lemmas on the fit *)

Lemma init_blocks_ok vs ws : forall m k,
  (k + m <= length vs)%nat -> (k + m <= length ws)%nat ->
  map_res (fun i => v <- list_get vs i ;; w <- list_get ws i ;;
                    Ok [{| value := v; weight := w |}]) (seq k m)
  = Ok (map (fun i => [{| value := nth i vs 0; weight := nth i ws 0 |}]) (seq k m)).
Proof.
  induction m as [|m IH]; intros k Hv Hw; simpl; [reflexivity|].
  rewrite (list_get_nth vs k 0), (list_get_nth ws k 0) by lia. simpl.
  rewrite IH by lia. reflexivity.
Qed.

(** The loop always ends without running out of fuel: [2 * len(blocks) - i]
    decreases at every iteration. *)
Lemma pav_loop_enough_fuel : forall fuel blocks means i,
  (length blocks <= length means)%nat -> (i <= length blocks - 1)%nat ->
  (2 * length blocks - i < fuel)%nat ->
  exists out, pav_loop fuel blocks means i = Ok out.
Proof.
  induction fuel as [|fuel IH]; intros blocks means i Hm Hi Hf; [lia|]. simpl.
  destruct (Nat.ltb_spec i (length blocks - 1)) as [Hlt|Hge]; [|eauto].
  rewrite (list_get_nth means i 0), (list_get_nth means (S i) 0) by lia. simpl.
  destruct (Qltb _ _).
  - rewrite (list_get_nth blocks i []), (list_get_nth blocks (S i) []) by lia. simpl.
    destruct (list_set_ok blocks i (nth i blocks [] ++ nth (S i) blocks []))
      as [b1 [E1 L1]]; [lia|]. rewrite E1. simpl.
    destruct (list_del_ok b1 (S i)) as [b2 [E2 L2]]; [lia|]. rewrite E2. simpl.
    rewrite (list_get_nth b2 i []) by lia. simpl.
    destruct (list_set_ok means i (block_mean (nth i b2 []))) as [m1 [E3 L3]]; [lia|].
    rewrite E3. simpl.
    destruct (Nat.ltb_spec 0 i); apply IH; lia.
  - apply IH; lia.
Qed.

(** [fit] never raises when every value has a weight. *)
Lemma fit_total vs ws :
  (length vs <= length ws)%nat -> exists out, fit vs (Some ws) = Ok out.
Proof.
  intros H. unfold fit, init_blocks. rewrite init_blocks_ok by lia. simpl.
  match goal with |- context [pav_loop ?f ?b ?m ?i] =>
    destruct (pav_loop_enough_fuel f b m i) as [out E] end;
    rewrite ?length_map, ?length_seq; try lia.
  rewrite E. simpl. eauto.
Qed.

(** When no adjacent pair of [means] is a violation, the loop only walks
    to the end and merges nothing. *)
Lemma pav_loop_no_violation : forall fuel blocks means i,
  (length blocks <= length means)%nat ->
  (forall j, (S j < length blocks)%nat -> Qltb (nth j means 0) (nth (S j) means 0) = false) ->
  (length blocks - i < fuel)%nat ->
  pav_loop fuel blocks means i = Ok blocks.
Proof.
  induction fuel as [|fuel IH]; intros blocks means i Hm Hv Hf; [lia|]. simpl.
  destruct (Nat.ltb_spec i (length blocks - 1)) as [Hlt|Hge]; [|reflexivity].
  rewrite (list_get_nth means i 0), (list_get_nth means (S i) 0) by lia. simpl.
  rewrite Hv by lia. apply IH; auto; lia.
Qed.

Lemma block_mean_single v w :
  ~ w == 0 -> block_mean [{| value := v; weight := w |}] == v.
Proof.
  intros Hw. unfold block_mean, Qsum. simpl.
  destruct (Qeq_bool (w + 0) 0) eqn:E.
  - apply Qeq_bool_iff in E. exfalso. apply Hw. rewrite <- E. ring.
  - field. intros H. apply Hw. rewrite <- H. ring.
Qed.

Lemma noninc_b_nth l :
  noninc_b l = true -> forall j, (S j < length l)%nat -> nth (S j) l 0 <= nth j l 0.
Proof.
  induction l as [|a [|b l] IH]; simpl; intros H j Hj; try lia.
  apply andb_true_iff in H as [Hab Hl].
  destruct j as [|j].
  - now apply Qle_bool_iff.
  - apply (IH Hl j). simpl. lia.
Qed.

Lemma flat_map_singletons (g : nat -> IsoPoint) l :
  flat_map (fun b => repeat (block_mean b) (length b)) (map (fun i => [g i]) l)
  = map (fun i => block_mean [g i]) l.
Proof. induction l as [|a l IH]; simpl; [reflexivity|]. now rewrite IH. Qed.

Lemma singleton_means_eq vs : forall ws,
  length ws = length vs -> Forall (fun w => ~ w == 0) ws ->
  Forall2 Qeq (map (fun i => block_mean [{| value := nth i vs 0; weight := nth i ws 0 |}])
                   (seq 0 (length vs))) vs.
Proof.
  induction vs as [|v vs IH]; intros [|w ws] Hl Hw; simpl in *; try lia; constructor.
  - inversion Hw; subst. now apply block_mean_single.
  - rewrite <- seq_shift, map_map. simpl. inversion Hw; subst. apply IH; auto.
Qed.

(** ** Claims on the monotone calibration fit *)

(** C2 (code_bug).  The fit of [[0, 1, 5, 10]] with the default unit
    weights is [[2, 2, 2, 10]], which increases between its last two
    positions: after a merge the source recomputes [means[i]] but never
    deletes [means[i+1]], so later comparisons read stale means and the last
    block is never compared. *)
Theorem fit_not_noninc_0_1_5_10 :
  exists out, fit [0; 1; 5; 10] None = Ok out /\ noninc_b out = false
              /\ nth 2 out 0 < nth 3 out 0.
Proof.
  exists [6 # 3; 6 # 3; 6 # 3; 10]. split; [vm_compute; reflexivity|].
  split; vm_compute; reflexivity.
Qed.

(** C3 (code_bug).  For values [[1, 2, 0]] with unit weights, the fit
    returns [[1, 1, 1]] (weighted squared error 2), while the
    non-increasing sequence [[3/2, 3/2, 0]] has weighted squared error 1/2:
    the output is not the least-squares non-increasing fit. *)
Theorem fit_not_optimal_1_2_0 :
  exists out, fit [1; 2; 0] None = Ok out /\ Forall2 Qeq out [1; 1; 1]
              /\ noninc_b [3 # 2; 3 # 2; 0] = true
              /\ sse [1; 2; 0] [1; 1; 1] [3 # 2; 3 # 2; 0] < sse [1; 2; 0] [1; 1; 1] out.
Proof.
  exists [3 # 3; 3 # 3; 3 # 3]. split; [vm_compute; reflexivity|].
  split; [repeat constructor|].
  split; vm_compute; reflexivity.
Qed.

(** C4 (counterexample).  The one-point sequence [[5]] is non-increasing,
    but with weight [0] the fit reports the block mean [0.0], not [5]. *)
Theorem fit_zero_weight_changes_value :
  noninc_b [5] = true /\ fit [5] (Some [0]) = Ok [0] /\ ~ Forall2 Qeq [0] [5].
Proof.
  split; [reflexivity|]. split; [vm_compute; reflexivity|].
  intros H. inversion H; subst. discriminate.
Qed.

(** C4 (amended).  For every non-increasing sequence of values, with the
    weights omitted or one non-zero weight per value, [fit] returns the
    sequence unchanged: no adjacent pair is a violation, so no block is
    merged and every singleton block reports its own value. *)
Theorem fit_identity_on_noninc (vs : list Q) (weights : option (list Q))
  (Hvs : noninc_b vs = true)
  (Hw : match weights with
        | None => True
        | Some ws => length ws = length vs /\ Forall (fun w => ~ w == 0) ws
        end) :
  exists out, fit vs weights = Ok out /\ Forall2 Qeq out vs.
Proof.
  assert (Hmain : forall ws, length ws = length vs -> Forall (fun w => ~ w == 0) ws ->
                  exists out, fit vs (Some ws) = Ok out /\ Forall2 Qeq out vs).
  { intros ws Hl Hnz. unfold fit, init_blocks. rewrite init_blocks_ok by lia. simpl.
    rewrite pav_loop_no_violation.
    - simpl. eexists. split; [reflexivity|].
      rewrite flat_map_singletons. now apply singleton_means_eq.
    - now rewrite !length_map.
    - intros j Hj. rewrite length_map, length_seq in Hj.
      rewrite map_map, !nth_map_seq by lia.
      unfold Qltb. apply negb_false_iff, Qle_bool_iff.
      rewrite Forall_nth in Hnz.
      rewrite !block_mean_single by (apply Hnz; lia).
      apply noninc_b_nth; auto.
    - rewrite length_map, length_seq. lia. }
  destruct weights as [ws|].
  - destruct Hw as [Hl Hnz]. now apply Hmain.
  - apply (Hmain (repeat 1 (length vs))).
    + apply repeat_length.
    + apply Forall_forall. intros x Hx. apply repeat_spec in Hx. subst. discriminate.
Qed.

(** ** Claims on the speed-credit model *)

(** Decides a closed comparison of rationals by evaluation. *)
Ltac qcheck := vm_compute; first [reflexivity | discriminate | intro; discriminate].

Lemma clip01_id x : 0 <= x <= 1 -> clip01 x == x.
Proof.
  intros [H0 H1]. unfold clip01, pymin, pymax, Qltb.
  destruct (Qle_bool 1 x) eqn:E1; simpl.
  - apply Qle_bool_iff in E1.
    assert (Hx : x == 1) by (apply Qle_antisym; auto).
    rewrite Hx. reflexivity.
  - destruct (Qle_bool x 0) eqn:E0; simpl; [|reflexivity].
    apply Qle_bool_iff in E0. apply Qle_antisym; auto.
Qed.

(** C5.  On [[T_MIN_SEC, T_MAX_SEC]] = [[1, 9]],
    [seconds_from_speed_credit] inverts [speed_credit_from_seconds]. *)
Theorem seconds_from_credit_inverse (x : Q) (Hx : T_MIN_SEC <= x <= T_MAX_SEC) :
  seconds_from_speed_credit (speed_credit_from_seconds x) == x.
Proof.
  unfold T_MIN_SEC, T_MAX_SEC in Hx. destruct Hx as [H1 H9].
  unfold seconds_from_speed_credit, speed_credit_from_seconds, T_MIN_SEC, T_MAX_SEC.
  destruct (Qle_bool x 1) eqn:E1.
  - apply Qle_bool_iff in E1.
    assert (Hx : x == 1) by (apply Qle_antisym; auto).
    rewrite clip01_id by (split; qcheck). rewrite Hx. qcheck.
  - destruct (Qle_bool 9 x) eqn:E9.
    + apply Qle_bool_iff in E9.
      assert (Hx : x == 9) by (apply Qle_antisym; auto).
      rewrite clip01_id by (split; qcheck). rewrite Hx. qcheck.
    + rewrite clip01_id.
      * field.
      * setoid_replace (1 - (x - 1) / (9 - 1)) with ((9 - x) * (1 # 8)) by field.
        split; lra.
Qed.

(** ** Claims on [DrillHub.feedback] *)

(** C6 (counterexample).  With the defaults of the spec's end-to-end
    scenario ([F = 0.5], tempos [[72, 84, 96]], levels [[1, 2, 3, 4]]), one
    [next()] followed by two [feedback(True, 1.5)] calls counts two items:
    the second feedback, with no [next()] in between, is not a no-op. *)
Theorem feedback_twice_counts_twice :
  (h <- DrillHub_default (1 # 2) ;;
   p <- next h (1 # 2) ;;
   h1 <- feedback (snd p) true (3 # 2) ;;
   h2 <- feedback h1 true (3 # 2) ;;
   Ok (n_items (bout h1), n_items (bout h2))) = Ok (1%Z, 2%Z).
Proof. vm_compute. reflexivity. Qed.

(** C6 (amended).  [feedback] is a no-op exactly when no candidate has been
    offered since construction or the last [new_bout]; otherwise it never
    clears the last-offered candidate, so every call (also a second one
    without an intervening [next()]) updates that level's calibrator and
    adds one item and its score to the bout statistics. *)
Theorem feedback_noop_iff_no_candidate (st : DrillHub) (correct : bool) (obs : Q) :
  (last_candidate st = None -> feedback st correct obs = Ok st) /\
  (forall c st', last_candidate st = Some c -> feedback st correct obs = Ok st' ->
     last_candidate st' = Some c /\
     n_items (bout st') = (n_items (bout st) + 1)%Z /\
     sum_score (bout st') == sum_score (bout st) +
                             (if correct then speed_credit_from_seconds obs else 0) /\
     exists cal cal', dict_get (calibrators st) (N c) = Ok cal /\
                      update cal (tempo c) obs = Ok cal' /\
                      calibrators st' = dict_set (calibrators st) (N c) cal').
Proof.
  split.
  - intros H. unfold feedback. now rewrite H.
  - intros c st' H E. unfold feedback in E. rewrite H in E.
    destruct (dict_get (calibrators st) (N c)) as [cal|] eqn:Ecal; [|discriminate].
    simpl in E. destruct (update cal (tempo c) obs) as [cal'|] eqn:Eup; [|discriminate].
    simpl in E. inversion E; subst; clear E. simpl.
    split; [reflexivity|]. split; [reflexivity|]. split; [destruct correct; ring|]. eauto.
Qed.

(** C7.  A [feedback(False, observed_sec)] that follows an offered
    candidate leaves the cumulative score unchanged, whatever the latency. *)
Theorem feedback_incorrect_adds_zero (st st' : DrillHub) (c : DrillCandidate) (obs : Q)
  (Hc : last_candidate st = Some c) (Hf : feedback st false obs = Ok st') :
  sum_score (bout st') == sum_score (bout st).
Proof.
  unfold feedback in Hf. rewrite Hc in Hf.
  destruct (dict_get (calibrators st) (N c)) as [cal|]; [|discriminate].
  simpl in Hf. destruct (update cal (tempo c) obs) as [cal'|]; [|discriminate].
  simpl in Hf. inversion Hf; subst. simpl. ring.
Qed.

(** ** Claims on [DrillHub.next] *)

(** C1 (code_bug).  [DrillHub(F=0.2, tempos=[72])]: the first [next()]
    with [random.random() = 0.95] offers the harder candidate [N = 3]; the
    second [next()] with [random.random() = 0.8] picks the easier candidate
    [N = 1], two levels away, and the N-step limiter calls
    [DrillCandidate] with four arguments for five fields: [TypeError]. *)
Theorem next_rate_limit_path_raises :
  (h <- DrillHub_new (2 # 10) (85 # 100) (6 # 10) (Some [72%Z]) None 60 200 8 ;;
   p <- next h (95 # 100) ;;
   p2 <- next (snd p) (8 # 10) ;;
   Ok (fst p2)) = Err TypeError
  /\ (h <- DrillHub_new (2 # 10) (85 # 100) (6 # 10) (Some [72%Z]) None 60 200 8 ;;
      p <- next h (95 # 100) ;;
      Ok (N (fst p), tempo (fst p))) = Ok (3%Z, 72%Z).
Proof. split; vm_compute; reflexivity. Qed.

(** *** Tempos of the menu *)

Lemma insert_by_In {A} (key : A -> Q) x y l : In x (insert_by key y l) -> x = y \/ In x l.
Proof.
  induction l as [|a l IH]; simpl; [intuition|].
  destruct (Qltb (key y) (key a)); simpl; intros [H|H]; auto.
  destruct (IH H); auto.
Qed.

Lemma sort_by_In {A} (key : A -> Q) x l : In x (sort_by key l) -> In x l.
Proof.
  unfold sort_by. assert (G : forall acc, In x (fold_left (fun acc y => insert_by key y acc) l acc)
                              -> In x acc \/ In x l).
  { induction l as [|a l IH]; simpl; intros acc H; auto.
    destruct (IH _ H) as [H'|H']; auto.
    destruct (insert_by_In key x a acc H'); auto. }
  intros H. destruct (G [] H) as [[]|]; auto.
Qed.

Lemma firstn_In_sub {A} n (l : list A) x : In x (firstn n l) -> In x l.
Proof. intros H. rewrite <- (firstn_skipn n l). apply in_or_app. auto. Qed.

Lemma tempos_with_rate_limits_bound st t0 t :
  last_tempo st = Some t0 -> (0 <= max_bpm_step st)%Z ->
  In t (tempos_with_rate_limits st) -> (Z.abs (t - t0) <= max_bpm_step st)%Z.
Proof.
  intros Ht Hs. unfold tempos_with_rate_limits. rewrite Ht.
  match goal with |- In t (match ?f with [] => _ | _ :: _ => _ end) -> _ =>
    destruct f as [|a l] eqn:E end.
  - simpl. intros [H|[]]. subst. rewrite Z.sub_diag. simpl. exact Hs.
  - intros H. rewrite <- E in H. apply filter_In in H as [_ Hu].
    apply orb_true_iff in Hu as [Hu|Hu].
    + now apply Z.leb_le.
    + apply Z.eqb_eq in Hu. subst. rewrite Z.sub_diag. simpl. exact Hs.
Qed.

Lemma menu_tempos_In st Nv : forall ts menu out,
  menu_tempos st Nv ts menu = Ok out ->
  forall c, In c out -> In c menu \/ In (tempo c) ts.
Proof.
  induction ts as [|t ts IH]; intros menu out E c Hc; simpl in E.
  - inversion E; subst. auto.
  - destruct (dict_get (calibrators st) Nv) as [cal|]; cbn [bind] in E; [|discriminate].
    destruct (predict_seconds cal t) as [pred|]; cbn [bind] in E; [|discriminate].
    destruct (infeasible pred).
    + destruct (IH _ _ E c Hc); simpl; auto.
    + destruct (expected_fitness st Nv t) as [fq|]; cbn [bind] in E; [|discriminate].
      destruct (IH _ _ E c Hc) as [H|H]; simpl; auto.
      apply in_app_or in H as [H|[H|[]]]; auto. subst. simpl. auto.
Qed.

Lemma menu_Ns_In st : forall Ns menu out,
  menu_Ns st Ns menu = Ok out ->
  forall c, In c out -> In c menu \/ In (tempo c) (tempos_with_rate_limits st).
Proof.
  induction Ns as [|Nv Ns IH]; intros menu out E c Hc; simpl in E.
  - inversion E; subst. auto.
  - destruct (menu_tempos st Nv (tempos_with_rate_limits st) menu) as [m'|] eqn:Em;
      cbn [bind] in E; [|discriminate].
    destruct (IH _ _ E c Hc) as [H|H]; auto.
    exact (menu_tempos_In st Nv _ _ _ Em c H).
Qed.

Lemma make_menu_In st menu :
  make_menu st = Ok menu -> forall c, In c menu -> In (tempo c) (tempos_with_rate_limits st).
Proof.
  unfold make_menu. intros E c Hc.
  destruct (menu_Ns st (N_set st) []) as [m|] eqn:Em; cbn [bind] in E; [|discriminate].
  injection E as <-.
  change (In c (firstn 6 (sort_by (fun c => Qabs (Fe c - F st)) m))) in Hc.
  apply firstn_In_sub, sort_by_In in Hc.
  destruct (menu_Ns_In st _ _ _ Em c Hc) as [[]|H]. exact H.
Qed.

(** The candidate drawn from a non-empty menu is a member of the menu;
    from an empty menu it keeps the last tempo. *)
Lemma sample_from_menu_tempo st menu r c t0 :
  last_tempo st = Some t0 -> sample_from_menu st menu r = Ok c -> tempo c = t0 \/ In c menu.
Proof.
  intros Ht E. unfold sample_from_menu in E. destruct menu as [|m0 ms].
  - rewrite Ht in E. cbn [bind] in E.
    destruct (match last_N st with Some n => Ok n | None => min_Z (N_set st) end) as [Nv|];
      cbn [bind] in E; [|discriminate].
    destruct (dict_get (calibrators st) Nv) as [cal|]; cbn [bind] in E; [|discriminate].
    destruct (predict_seconds cal t0) as [pred|]; cbn [bind] in E; [|discriminate].
    destruct (expected_fitness st Nv t0) as [fq|]; cbn [bind] in E; [|discriminate].
    inversion E; subst. left. reflexivity.
  - set (l := sort_by Fe (m0 :: ms)) in E. cbn [bind] in E.
    set (center := Nat.min (insertion_index l (F st)) (length l - 1)) in E.
    destruct (list_get l center) as [c0|] eqn:E0; cbn [bind] in E; [|discriminate].
    destruct (list_get l (Nat.max 0 (center - 1))) as [ce|] eqn:E1; cbn [bind] in E; [|discriminate].
    destruct (list_get l (Nat.min (length l - 1) (S center))) as [ch|] eqn:E2;
      cbn [bind] in E; [|discriminate].
    assert (Hpick : In (if Qltb r (7 # 10) then c0 else if Qltb r (9 # 10) then ce else ch)
                       (m0 :: ms)).
    { apply (sort_by_In Fe).
      destruct (Qltb r (7 # 10)); [|destruct (Qltb r (9 # 10))];
        eapply list_get_In; eassumption. }
    right. destruct (last_N st) as [lN|].
    + destruct (Z.ltb _ _).
      * destruct (dict_get (calibrators st) lN) as [cal|]; cbn [bind] in E; [|discriminate].
        destruct (predict_seconds cal _) as [pred|]; cbn [bind] in E; [|discriminate].
        destruct (expected_fitness st lN _) as [fq|]; cbn [bind] in E; discriminate.
      * inversion E; subst. exact Hpick.
    + inversion E; subst. exact Hpick.
Qed.

(** Every constructed hub has [max_bpm_step = 8]; no method assigns it. *)
Lemma DrillHub_new_max_bpm_step F0 p0 w0 ts Ns tmin tmax Nmax h :
  DrillHub_new F0 p0 w0 ts Ns tmin tmax Nmax = Ok h -> max_bpm_step h = 8%Z.
Proof.
  unfold DrillHub_new. destruct (map_res _ _); cbn [bind]; intros E; inversion E; reflexivity.
Qed.

Lemma next_max_bpm_step st r cand st' :
  next st r = Ok (cand, st') -> max_bpm_step st' = max_bpm_step st.
Proof.
  unfold next. destruct (make_menu st); cbn [bind]; [|discriminate].
  destruct (sample_from_menu st _ r); cbn [bind]; [|discriminate].
  intros E; inversion E; reflexivity.
Qed.

Lemma feedback_max_bpm_step st b o st' :
  feedback st b o = Ok st' -> max_bpm_step st' = max_bpm_step st.
Proof.
  unfold feedback. destruct (last_candidate st) as [c|]; [|intros E; inversion E; reflexivity].
  destruct (dict_get _ _); cbn [bind]; [|discriminate].
  destruct (update _ _ _); cbn [bind]; [|discriminate].
  intros E; inversion E; reflexivity.
Qed.

(** C8.  After a candidate at tempo [t0], the next [next()] that returns a
    candidate returns one within [max_bpm_step] of [t0]; with
    [max_bpm_step = 8] (its value in every constructed hub) and [t0 = 80],
    the tempo lies in [[72, 88]]. *)
Theorem next_tempo_hysteresis (st st' : DrillHub) (r : Q) (cand : DrillCandidate) (t0 : Z)
  (Ht : last_tempo st = Some t0) (Hs : (0 <= max_bpm_step st)%Z)
  (Hn : next st r = Ok (cand, st')) :
  (Z.abs (tempo cand - t0) <= max_bpm_step st)%Z /\
  (max_bpm_step st = 8%Z -> t0 = 80%Z -> (72 <= tempo cand <= 88)%Z).
Proof.
  assert (Hb : (Z.abs (tempo cand - t0) <= max_bpm_step st)%Z).
  { unfold next in Hn.
    destruct (make_menu st) as [menu|] eqn:Em; cbn [bind] in Hn; [|discriminate].
    destruct (sample_from_menu st menu r) as [c|] eqn:Es; cbn [bind] in Hn; [|discriminate].
    inversion Hn; subst.
    destruct (sample_from_menu_tempo st menu r cand t0 Ht Es) as [H|H].
    - rewrite H, Z.sub_diag. simpl. exact Hs.
    - apply (tempos_with_rate_limits_bound st); auto.
      exact (make_menu_In st menu Em cand H). }
  split; [exact Hb|]. intros H8 H80. rewrite H8 in Hb. subst t0.
  apply Z.abs_le in Hb. lia.
Qed.

(** ** Claims on the cold calibrator and on construction *)

Lemma list_last_ok {A} (l : list A) : l <> [] -> exists y, list_last l = Ok y /\ In y l.
Proof.
  intros H. unfold list_last. destruct (rev l) as [|y r] eqn:E.
  - apply (f_equal (@rev A)) in E. rewrite rev_involutive in E. subst. now contradiction H.
  - exists y. split; [reflexivity|]. apply in_rev. rewrite E. now left.
Qed.

Lemma interp_loop_const (m : Q) (cs : list Z) (ss : list Q) (t : Z) : forall idx,
  forallb (fun s => Qeq_bool s m) ss = true -> ss <> [] ->
  forallb (fun i => Nat.ltb (S i) (length cs) && Nat.ltb (S i) (length ss)
                    && Z.ltb (nth i cs 0%Z) (nth (S i) cs 0%Z)) idx = true ->
  exists p, interp_loop idx cs ss t = Ok p /\ p == m.
Proof.
  intros idx Hs Hne. rewrite forallb_forall in Hs.
  induction idx as [|i idx IH]; simpl; intros Hb.
  - destruct (list_last_ok ss Hne) as [y [Ey Iy]]. rewrite Ey.
    exists y. split; [reflexivity|]. now apply Qeq_bool_iff, Hs.
  - apply andb_true_iff in Hb as [Hi Hb]. apply andb_true_iff in Hi as [Hi Hlt].
    apply andb_true_iff in Hi as [Hc Hl]. apply Nat.ltb_lt in Hc, Hl. apply Z.ltb_lt in Hlt.
    rewrite (list_get_nth cs i 0%Z), (list_get_nth cs (S i) 0%Z) by lia. cbn [bind].
    destruct (Z.leb _ t && Z.leb t _); [|now apply IH].
    rewrite (list_get_nth ss i 0), (list_get_nth ss (S i) 0) by lia. cbn [bind].
    unfold pydiv. destruct (Qeq_bool _ 0) eqn:Ez.
    + apply Qeq_bool_iff in Ez. unfold Qeq in Ez. simpl in Ez. lia.
    + cbn [bind]. eexists. split; [reflexivity|].
      assert (H0 : nth i ss 0 == m) by (apply Qeq_bool_iff, Hs, nth_In; lia).
      assert (H1 : nth (S i) ss 0 == m) by (apply Qeq_bool_iff, Hs, nth_In; lia).
      rewrite H0, H1. ring.
Qed.

(** A calibrator whose fitted curve is flat at [m], over strictly
    increasing centers, predicts [m] at every tempo. *)
Lemma predict_seconds_flat (cal : TempoCalibrator) curve (m : Q) :
  smoothed_curve cal = Ok curve -> curve <> [] ->
  forallb (fun s => Qeq_bool s m) (map snd curve) = true ->
  forallb (fun i => Nat.ltb (S i) (length (map fst curve)) && Nat.ltb (S i) (length (map snd curve))
                    && Z.ltb (nth i (map fst curve) 0%Z) (nth (S i) (map fst curve) 0%Z))
          (seq 0 (length (map fst curve) - 1)) = true ->
  forall tempo, exists p, predict_seconds cal tempo = Ok p /\ p == m.
Proof.
  intros Ec Hne Hs Hb tempo. unfold predict_seconds. rewrite Ec. cbn [bind].
  assert (Hs' : forall s, In s (map snd curve) -> s == m)
    by (intros s Is; rewrite forallb_forall in Hs; now apply Qeq_bool_iff, Hs).
  destruct curve as [|x rest]; [now contradiction Hne|].
  cbn [bind list_get nth_error map].
  destruct (Z.leb tempo (fst x)).
  - exists (snd x). split; [reflexivity|]. apply Hs'. now left.
  - destruct (list_last_ok (fst x :: map fst rest)) as [cl [El _]]; [discriminate|].
    rewrite El. cbn [bind]. destruct (Z.leb cl tempo).
    + destruct (list_last_ok (snd x :: map snd rest)) as [y [Ey Iy]]; [discriminate|].
      rewrite Ey. exists y. split; [reflexivity|]. now apply Hs'.
    + apply interp_loop_const; auto. discriminate.
Qed.

(** The cold default calibrator: ten centers, and a fitted curve in which
    every point has been pooled into one block of mean [555/108]. *)
Lemma cold_calibrator_curve :
  exists cal, TempoCalibrator_default 60 200 10 = Ok cal /\
  smoothed_curve cal = Ok (combine [60; 76; 91; 107; 122; 138; 153; 169; 184; 200]%Z
                                   (repeat (55500 # 10800) 10)).
Proof. eexists. split; [reflexivity|]. vm_compute. reflexivity. Qed.

Lemma cold_calibrator_predict tempo :
  exists p, (cal <- TempoCalibrator_default 60 200 10 ;; predict_seconds cal tempo) = Ok p
            /\ p == 555 # 108.
Proof.
  destruct cold_calibrator_curve as [cal [Ec Ecurve]]. rewrite Ec. cbn [bind].
  destruct (predict_seconds_flat cal _ (555 # 108) Ecurve) with (tempo := tempo)
    as [p [Ep Hp]]; try (vm_compute; reflexivity); [discriminate|].
  eauto.
Qed.

Lemma map_res_In {A B} (f : A -> result B) : forall l out,
  map_res f l = Ok out -> forall y, In y out -> exists x, In x l /\ f x = Ok y.
Proof.
  induction l as [|a l IH]; simpl; intros out E y Hy.
  - inversion E; subst. destruct Hy.
  - destruct (f a) as [b|] eqn:Ef; cbn [bind] in E; [|discriminate].
    destruct (map_res f l) as [ys|] eqn:Er; cbn [bind] in E; [|discriminate].
    inversion E; subst. destruct Hy as [<-|Hy]; [eauto|].
    destruct (IH ys eq_refl y Hy) as [x [Ix Fx]]. eauto.
Qed.

Lemma map_res_ok {A B} (f : A -> result B) l :
  (forall x, In x l -> exists y, f x = Ok y) -> exists out, map_res f l = Ok out.
Proof.
  induction l as [|a l IH]; simpl; intros H; [exists []; reflexivity|].
  destruct (H a (or_introl eq_refl)) as [b Eb]. rewrite Eb. cbn [bind].
  destruct IH as [ys Ey]; [intros x Hx; apply H; auto|]. rewrite Ey.
  exists (b :: ys). reflexivity.
Qed.

Lemma dict_get_In {V} (d : dict V) k v : dict_get d k = Ok v -> In (k, v) d.
Proof.
  induction d as [|[k' v'] d IH]; simpl; [discriminate|].
  destruct (Z.eqb_spec k k'); intros E; [inversion E; subst; auto|auto].
Qed.

(** Every calibrator of a freshly constructed hub is
    [TempoCalibrator(t_min, t_max, n_bins=10)]. *)
Lemma DrillHub_new_calibrator F0 p0 w0 ts Ns tmin tmax Nmax h Nv cal :
  DrillHub_new F0 p0 w0 ts Ns tmin tmax Nmax = Ok h ->
  dict_get (calibrators h) Nv = Ok cal -> TempoCalibrator_default tmin tmax 10 = Ok cal.
Proof.
  unfold DrillHub_new. destruct (map_res _ _) as [cals|] eqn:Em; cbn [bind]; [|discriminate].
  intros E Eg. inversion E; subst; clear E. simpl in Eg.
  apply dict_get_In in Eg. destruct (map_res_In _ _ _ Em _ Eg) as [k [_ Ek]].
  destruct (TempoCalibrator_default tmin tmax 10); cbn [bind] in Ek; [|discriminate].
  now inversion Ek.
Qed.

Lemma infeasible_cold p : p == 555 # 108 -> infeasible p = false.
Proof. intros Hp. unfold infeasible, Qltb. rewrite Hp. reflexivity. Qed.

(** C10.  A cold default calibrator predicts the pooled prior mean
    [555/108] (about 5.14 s) at every tempo; this value lies strictly
    between [T_MIN_SEC = 1] and [T_MAX_SEC = 9]; so on a cold hub with the
    default tempo bounds, the feasibility filter of [_make_menu] rejects no
    prediction. *)
Theorem cold_prediction_constant_feasible :
  (forall tempo, exists p, (cal <- TempoCalibrator_default 60 200 10 ;; predict_seconds cal tempo)
                           = Ok p /\ p == 555 # 108) /\
  T_MIN_SEC < 555 # 108 < T_MAX_SEC /\
  (forall F0 p0 w0 ts Ns Nmax h Nv cal tempo,
     DrillHub_new F0 p0 w0 ts Ns 60 200 Nmax = Ok h -> dict_get (calibrators h) Nv = Ok cal ->
     exists p, predict_seconds cal tempo = Ok p /\ p == 555 # 108 /\ infeasible p = false).
Proof.
  split; [exact cold_calibrator_predict|].
  split; [split; qcheck|].
  intros F0 p0 w0 ts Ns Nmax h Nv cal tempo Eh Eg.
  pose proof (DrillHub_new_calibrator _ _ _ _ _ _ _ _ _ _ _ Eh Eg) as Ec.
  destruct (cold_calibrator_predict tempo) as [p [Ep Hp]]. rewrite Ec in Ep. cbn [bind] in Ep.
  exists p. split; [exact Ep|]. split; [exact Hp|]. now apply infeasible_cold.
Qed.

Lemma bin_edges_ok tmin tmax nb : (nb - 1 <> 0)%Z -> exists e, bin_edges tmin tmax nb = Ok e.
Proof.
  intros Hnb. unfold bin_edges. apply map_res_ok. intros i _. unfold pydiv.
  destruct (Qeq_bool (inject_Z (nb - 1)) 0) eqn:E.
  - apply Qeq_bool_iff in E. unfold Qeq in E. simpl in E. lia.
  - cbn [bind]. eexists. reflexivity.
Qed.

Lemma TempoCalibrator_default_ok tmin tmax :
  exists cal, TempoCalibrator_default tmin tmax 10 = Ok cal.
Proof.
  unfold TempoCalibrator_default, TempoCalibrator_new.
  destruct (bin_edges_ok tmin tmax 10) as [e Ee]; [lia|]. rewrite Ee. cbn [bind].
  eexists. reflexivity.
Qed.

(** C9 (counterexample).  [DrillHub(F=0.5, t_min=200, t_max=60, N_max=0)]
    constructs successfully (with no calibrator at all), and so does
    [TempoCalibrator(n_bins=0)] (with no bin). *)
Theorem invalid_config_constructs :
  (exists h, DrillHub_new (1 # 2) (85 # 100) (6 # 10) None None 200 60 0 = Ok h
             /\ calibrators h = []) /\
  (exists cal, TempoCalibrator_new 60 200 0 (1 # 10) (8 # 10) (95 # 10) [] = Ok cal
               /\ bins cal = []).
Proof. split; eexists; split; reflexivity. Qed.

(** C9 (amended).  Construction performs no validation: [DrillHub(...)]
    constructs successfully for every [t_min], [t_max] and [N_max]
    (including [t_min >= t_max] and [N_max < 1]), and a [TempoCalibrator]
    with a non-positive bin count constructs successfully, with no bins. *)
Theorem constructors_accept_invalid_config :
  (forall F0 p0 w0 ts Ns tmin tmax Nmax,
     exists h, DrillHub_new F0 p0 w0 ts Ns tmin tmax Nmax = Ok h) /\
  (forall tmin tmax nb lam af asl, (nb <= 0)%Z ->
     exists cal, TempoCalibrator_new tmin tmax nb lam af asl [] = Ok cal /\ bins cal = []).
Proof.
  split.
  - intros F0 p0 w0 ts Ns tmin tmax Nmax. unfold DrillHub_new.
    destruct (map_res_ok (fun k => c <- TempoCalibrator_default tmin tmax 10 ;; Ok (Z.of_nat k, c))
                         (seq 1 (Z.to_nat Nmax))) as [cals E].
    { intros k _. destruct (TempoCalibrator_default_ok tmin tmax) as [cal Ec].
      rewrite Ec. cbn [bind]. eexists. reflexivity. }
    rewrite E. cbn [bind]. eexists. reflexivity.
  - intros tmin tmax nb lam af asl Hnb. unfold TempoCalibrator_new, bin_edges.
    replace (Z.to_nat nb) with 0%nat by lia. simpl. eexists. split; reflexivity.
Qed.

(** ** Instances of the claims' theorems on concrete inputs *)

Lemma fit_identity_on_noninc_witness :
  exists out, fit [3; 2; 2; 1] (Some [1; 2; 1; 1]) = Ok out /\ Forall2 Qeq out [3; 2; 2; 1].
Proof.
  apply fit_identity_on_noninc; [reflexivity|].
  split; [reflexivity|]. repeat constructor; qcheck.
Defined.

Lemma seconds_from_credit_inverse_witness :
  T_MIN_SEC <= 5 <= T_MAX_SEC /\ seconds_from_speed_credit (speed_credit_from_seconds 5) == 5.
Proof.
  assert (H : T_MIN_SEC <= 5 <= T_MAX_SEC) by (split; qcheck).
  split; [exact H|]. exact (seconds_from_credit_inverse 5 H).
Defined.

Lemma feedback_noop_iff_no_candidate_witness :
  last_candidate cold_hub = None /\ feedback cold_hub true (3 # 2) = Ok cold_hub /\
  n_items (bout hub_feedback_2) = 2%Z /\
  sum_score (bout hub_feedback_2) == sum_score (bout hub_feedback_1) + speed_credit_from_seconds (3 # 2).
Proof.
  assert (H0 : last_candidate cold_hub = None) by (vm_compute; reflexivity).
  split; [exact H0|].
  split; [exact (proj1 (feedback_noop_iff_no_candidate cold_hub true (3 # 2)) H0)|].
  destruct (proj2 (feedback_noop_iff_no_candidate hub_feedback_1 true (3 # 2))
              (match last_candidate hub_feedback_1 with Some c => c | None => empty_candidate end)
              hub_feedback_2)
    as [_ [H1 [H2 _]]]; [vm_compute; reflexivity | vm_compute; reflexivity |].
  split; [rewrite H1; vm_compute; reflexivity|exact H2].
Defined.

Lemma feedback_incorrect_adds_zero_witness :
  sum_score (bout (unwrap_or empty_hub (feedback hub_after_next false (7 # 2))))
  == sum_score (bout hub_after_next).
Proof.
  apply (feedback_incorrect_adds_zero hub_after_next
           (unwrap_or empty_hub (feedback hub_after_next false (7 # 2)))
           (match last_candidate hub_after_next with Some c => c | None => empty_candidate end)
           (7 # 2)); vm_compute; reflexivity.
Defined.

Lemma next_tempo_hysteresis_witness :
  last_tempo hub_80 = Some 80%Z /\
  (Z.abs (tempo (fst hub_80_next) - 80) <= max_bpm_step hub_80)%Z /\
  (max_bpm_step hub_80 = 8%Z -> 80%Z = 80%Z -> (72 <= tempo (fst hub_80_next) <= 88)%Z).
Proof.
  assert (Ht : last_tempo hub_80 = Some 80%Z) by (vm_compute; reflexivity).
  split; [exact Ht|].
  apply (next_tempo_hysteresis hub_80 (snd hub_80_next) (95 # 100) (fst hub_80_next) 80 Ht).
  - vm_compute. discriminate.
  - vm_compute. reflexivity.
Defined.

Lemma constructors_accept_invalid_config_witness :
  exists cal, TempoCalibrator_new 60 200 (-3) (1 # 10) (8 # 10) (95 # 10) [] = Ok cal
              /\ bins cal = [].
Proof. apply (proj2 constructors_accept_invalid_config). lia. Defined.

Lemma cold_prediction_constant_feasible_witness :
  exists p, predict_seconds cold_calibrator 100%Z = Ok p /\ p == 555 # 108 /\ infeasible p = false.
Proof.
  apply (proj2 (proj2 cold_prediction_constant_feasible) (1 # 2) (85 # 100) (6 # 10) None None 8%Z
           cold_hub 1%Z cold_calibrator 100%Z); vm_compute; reflexivity.
Defined.

(** ** Further properties of the engine *)

Lemma Qltb_true a b : Qltb a b = true <-> a < b.
Proof.
  unfold Qltb. rewrite negb_true_iff. split.
  - intros H. apply Qnot_le_lt. intros H'. apply Qle_bool_iff in H'. congruence.
  - intros H. destruct (Qle_bool b a) eqn:E; auto. apply Qle_bool_iff in E. lra.
Qed.

Lemma Qltb_false a b : Qltb a b = false <-> b <= a.
Proof.
  unfold Qltb. rewrite negb_false_iff. apply Qle_bool_iff.
Qed.

Lemma Qle_bool_false a b : Qle_bool a b = false <-> b < a.
Proof.
  split.
  - intros H. apply Qnot_le_lt. intros H'. apply Qle_bool_iff in H'. congruence.
  - intros H. destruct (Qle_bool a b) eqn:E; auto. apply Qle_bool_iff in E. lra.
Qed.

Ltac qltb_cases :=
  repeat match goal with
  | |- context [Qltb ?a ?b] =>
    let E := fresh "E" in destruct (Qltb a b) eqn:E;
    [apply Qltb_true in E | apply Qltb_false in E]
  | |- context [Qle_bool ?a ?b] =>
    let E := fresh "E" in destruct (Qle_bool a b) eqn:E;
    [apply Qle_bool_iff in E | apply Qle_bool_false in E]
  end.

Lemma pymin_le a b : pymin a b <= a /\ pymin a b <= b.
Proof. unfold pymin. qltb_cases; lra. Qed.
Lemma pymax_ge a b : a <= pymax a b /\ b <= pymax a b.
Proof. unfold pymax. qltb_cases; lra. Qed.

Lemma clip01_facts (x : Q) :
  0 <= clip01 x <= 1 /\ (0 <= x <= 1 -> clip01 x == x)
  /\ (x <= 0 -> clip01 x == 0) /\ (1 <= x -> clip01 x == 1).
Proof.
  unfold clip01, pymin. destruct (Qltb x 1) eqn:E1;
    [apply Qltb_true in E1 | apply Qltb_false in E1];
    unfold pymax; qltb_cases; lra.
Qed.

(** X1: [clip01] always lies in [0, 1]; it is the identity on [0, 1], 0 at or below 0 and 1 at or above 1. *)
Theorem clip01_range (x : Q) :
  0 <= clip01 x <= 1 /\ (0 <= x <= 1 -> clip01 x == x)
  /\ (x <= 0 -> clip01 x == 0) /\ (1 <= x -> clip01 x == 1).
Proof. exact (clip01_facts x). Qed.

Lemma speed_credit_facts (s s' : Q) :
  0 <= speed_credit_from_seconds s <= 1 /\
  (s <= T_MIN_SEC -> speed_credit_from_seconds s == 1) /\
  (T_MAX_SEC <= s -> speed_credit_from_seconds s == 0) /\
  (s <= s' -> speed_credit_from_seconds s' <= speed_credit_from_seconds s).
Proof.
  unfold speed_credit_from_seconds, T_MIN_SEC, T_MAX_SEC.
  assert (L : forall x, 1 - (x - 1) / (9 - 1) == (9 - x) * (1 # 8)) by (intros; field).
  qltb_cases; rewrite ?L; lra.
Qed.

(** X2: [speed_credit_from_seconds] lies in [0, 1], is 1 at or below [T_MIN_SEC], 0 at or above [T_MAX_SEC], and never increases when the time grows. *)
Theorem speed_credit_range_antitone (s s' : Q) :
  0 <= speed_credit_from_seconds s <= 1 /\
  (s <= T_MIN_SEC -> speed_credit_from_seconds s == 1) /\
  (T_MAX_SEC <= s -> speed_credit_from_seconds s == 0) /\
  (s <= s' -> speed_credit_from_seconds s' <= speed_credit_from_seconds s).
Proof. exact (speed_credit_facts s s'). Qed.

(** X3: [seconds_from_speed_credit] always lies in [T_MIN_SEC, T_MAX_SEC], and mapping its result back gives the clipped credit. *)
Theorem seconds_from_credit_range_roundtrip (c : Q) :
  T_MIN_SEC <= seconds_from_speed_credit c <= T_MAX_SEC /\
  speed_credit_from_seconds (seconds_from_speed_credit c) == clip01 c.
Proof.
  destruct (clip01_facts c) as [[H0 H1] _].
  unfold seconds_from_speed_credit, speed_credit_from_seconds, T_MIN_SEC, T_MAX_SEC.
  set (k := clip01 c) in *.
  assert (L : forall x, 1 - (x - 1) / (9 - 1) == (9 - x) * (1 # 8)) by (intros; field).
  split; [lra|]. qltb_cases; rewrite ?L; lra.
Qed.

Lemma norm_tempo_facts (t tmin tmax : Z) :
  (tmin = tmax -> norm_tempo t tmin tmax = Err ZeroDivisionError) /\
  (tmin <> tmax -> exists x, norm_tempo t tmin tmax = Ok x /\ 0 <= x <= 1) /\
  (tmin <> tmax -> exists x, norm_tempo tmin tmin tmax = Ok x /\ x == 0) /\
  ((tmin < tmax)%Z -> exists x, norm_tempo tmax tmin tmax = Ok x /\ x == 1).
Proof.
  unfold norm_tempo, pydiv.
  assert (Hz : forall z, Qeq_bool (inject_Z z) 0 = true <-> z = 0%Z).
  { intros z. rewrite Qeq_bool_iff. unfold Qeq. simpl. lia. }
  repeat split.
  - intros ->. rewrite Z.sub_diag. reflexivity.
  - intros H. destruct (Qeq_bool _ 0) eqn:E; [apply Hz in E; lia|]. cbn [bind].
    eexists. split; [reflexivity|]. apply clip01_facts.
  - intros H. destruct (Qeq_bool _ 0) eqn:E; [apply Hz in E; lia|]. cbn [bind].
    eexists. split; [reflexivity|]. apply (proj1 (proj2 (proj2 (clip01_facts _)))).
    rewrite Z.sub_diag. unfold Qdiv. rewrite Qmult_0_l. lra.
  - intros H. destruct (Qeq_bool _ 0) eqn:E; [apply Hz in E; lia|]. cbn [bind].
    eexists. split; [reflexivity|]. apply (proj2 (proj2 (proj2 (clip01_facts _)))).
    apply Qeq_bool_neq in E. setoid_replace (inject_Z (tmax - tmin) / inject_Z (tmax - tmin))
      with 1 by (field; exact E). lra.
Qed.

(** X4: [norm_tempo] raises [ZeroDivisionError] exactly when [t_min = t_max]; otherwise it lies in [0, 1], is 0 at [t_min], and 1 at [t_max] when [t_min < t_max]. *)
Theorem norm_tempo_spec (t tmin tmax : Z) :
  (tmin = tmax -> norm_tempo t tmin tmax = Err ZeroDivisionError) /\
  (tmin <> tmax -> exists x, norm_tempo t tmin tmax = Ok x /\ 0 <= x <= 1) /\
  (tmin <> tmax -> exists x, norm_tempo tmin tmin tmax = Ok x /\ x == 0) /\
  ((tmin < tmax)%Z -> exists x, norm_tempo tmax tmin tmax = Ok x /\ x == 1).
Proof. exact (norm_tempo_facts t tmin tmax). Qed.

Lemma merge_concat : forall (blocks : list (list IsoPoint)) i bi bi1 b1 b2,
  list_get blocks i = Ok bi -> list_get blocks (S i) = Ok bi1 ->
  list_set blocks i (bi ++ bi1) = Ok b1 -> list_del b1 (S i) = Ok b2 ->
  concat b2 = concat blocks.
Proof.
  induction blocks as [|x rest IH]; intros i bi bi1 b1 b2 E0 E1 E2 E3;
    [discriminate|].
  destruct i as [|i].
  - destruct rest as [|y rest]; [discriminate|].
    unfold list_get in E0, E1. simpl in E0, E1. inversion E0; inversion E1; subst.
    simpl in E2. inversion E2; subst. simpl in E3. inversion E3; subst.
    simpl. now rewrite app_assoc.
  - unfold list_get in E0, E1. simpl in E0, E1. simpl in E2.
    destruct (list_set rest i (bi ++ bi1)) as [r|] eqn:Er; cbn [bind] in E2; [|discriminate].
    inversion E2; subst. simpl in E3.
    destruct (list_del r (S i)) as [r'|] eqn:Ed; cbn [bind] in E3; [|discriminate].
    inversion E3; subst. simpl. f_equal. eapply IH; eauto.
Qed.

Lemma pav_loop_concat : forall fuel blocks means i out,
  pav_loop fuel blocks means i = Ok out -> concat out = concat blocks.
Proof.
  induction fuel as [|fuel IH]; intros blocks means i out E; [discriminate|].
  simpl in E. destruct (Nat.ltb i (length blocks - 1)); [|now inversion E].
  destruct (list_get means i); cbn [bind] in E; [|discriminate].
  destruct (list_get means (S i)); cbn [bind] in E; [|discriminate].
  destruct (Qltb _ _); [|eapply IH; eauto].
  destruct (list_get blocks i) as [bi|] eqn:E0; cbn [bind] in E; [|discriminate].
  destruct (list_get blocks (S i)) as [bi1|] eqn:E1; cbn [bind] in E; [|discriminate].
  destruct (list_set blocks i (bi ++ bi1)) as [b1|] eqn:E2; cbn [bind] in E; [|discriminate].
  destruct (list_del b1 (S i)) as [b2|] eqn:E3; cbn [bind] in E; [|discriminate].
  destruct (list_get b2 i); cbn [bind] in E; [|discriminate].
  destruct (list_set means i _); cbn [bind] in E; [|discriminate].
  rewrite (IH _ _ _ _ E). exact (merge_concat blocks i bi bi1 b1 b2 E0 E1 E2 E3).
Qed.

Lemma map_nth_seq_self {A} (l : list A) d : map (fun i => nth i l d) (seq 0 (length l)) = l.
Proof.
  induction l as [|a l IH]; simpl; [reflexivity|].
  f_equal. rewrite <- seq_shift, map_map. simpl. exact IH.
Qed.

Lemma concat_singletons {A B} (g : A -> B) l : concat (map (fun i => [g i]) l) = map g l.
Proof. induction l as [|a l IH]; simpl; [reflexivity|]. now rewrite IH. Qed.

(** What [fit] computes, as a list of blocks: the output repeats each
    block's mean over the block, and the blocks concatenate to the input
    points. *)
Lemma fit_blocks vs ws out :
  length ws = length vs -> fit vs (Some ws) = Ok out ->
  exists B, concat B = map (fun i => {| value := nth i vs 0; weight := nth i ws 0 |})
                           (seq 0 (length vs))
            /\ out = flat_map (fun b => repeat (block_mean b) (length b)) B.
Proof.
  intros Hl E. unfold fit, init_blocks in E. rewrite init_blocks_ok in E by lia.
  cbn [bind] in E.
  destruct (pav_loop _ _ _ 0) as [B|] eqn:Ep; cbn [bind] in E; [|discriminate].
  inversion E; subst. exists B. split; [|reflexivity].
  rewrite (pav_loop_concat _ _ _ _ _ Ep). apply concat_singletons.
Qed.

Lemma length_flat_map_repeat (B : list (list IsoPoint)) :
  length (flat_map (fun b => repeat (block_mean b) (length b)) B) = length (concat B).
Proof.
  induction B as [|b B IH]; simpl; [reflexivity|].
  rewrite !length_app, repeat_length, IH. reflexivity.
Qed.

Lemma fit_length_facts (vs : list Q) (weights : option (list Q)) :
  (match weights with None => True | Some ws => (length vs <= length ws)%nat end ->
   exists out, fit vs weights = Ok out /\ length out = length vs) /\
  (match weights with None => False | Some ws => (length ws < length vs)%nat end ->
   fit vs weights = Err IndexError).
Proof.
  split.
  - intros Hw.
    assert (Hmain : forall ws, (length vs <= length ws)%nat ->
                    exists out, fit vs (Some ws) = Ok out /\ length out = length vs).
    { intros ws H. unfold fit, init_blocks. rewrite init_blocks_ok by lia. cbn [bind].
      destruct (pav_loop_enough_fuel (2 * length vs + 1)
                  (map (fun i => [{| value := nth i vs 0; weight := nth i ws 0 |}])
                       (seq 0 (length vs)))
                  (map block_mean (map (fun i => [{| value := nth i vs 0; weight := nth i ws 0 |}])
                       (seq 0 (length vs)))) 0) as [B Ep];
        rewrite ?length_map, ?length_seq; try lia.
      rewrite Ep. cbn [bind]. eexists. split; [reflexivity|].
      rewrite length_flat_map_repeat, (pav_loop_concat _ _ _ _ _ Ep), concat_singletons.
      now rewrite length_map, length_seq. }
    destruct weights as [ws|].
    + now apply Hmain.
    + apply (Hmain (repeat 1 (length vs))). now rewrite repeat_length.
  - destruct weights as [ws|]; [|intros []]. intros H. unfold fit, init_blocks.
    assert (G : forall k m, (k <= length ws)%nat -> (length ws < k + m)%nat ->
              (k + m <= length vs)%nat ->
              map_res (fun i => v <- list_get vs i ;; w <- list_get ws i ;;
                                Ok [{| value := v; weight := w |}]) (seq k m) = Err IndexError).
    { intros k m. revert k. induction m as [|m IHm]; intros k H1 H2 H3; [lia|].
      simpl. rewrite (list_get_nth vs k 0) by lia. cbn [bind].
      destruct (Nat.eq_dec k (length ws)) as [->|Hne].
      - unfold list_get at 1. rewrite (proj2 (nth_error_None ws (length ws))) by lia.
        reflexivity.
      - rewrite (list_get_nth ws k 0) by lia. cbn [bind]. rewrite IHm by lia. reflexivity. }
    rewrite (G 0%nat (length vs)) by lia. reflexivity.
Qed.

(** X5: [fit] returns one value per input when the weights are omitted or at least as many as the values, and raises [IndexError] when fewer weights than values are given. *)
Theorem fit_length (vs : list Q) (weights : option (list Q)) :
  (match weights with None => True | Some ws => (length vs <= length ws)%nat end ->
   exists out, fit vs weights = Ok out /\ length out = length vs) /\
  (match weights with None => False | Some ws => (length ws < length vs)%nat end ->
   fit vs weights = Err IndexError).
Proof. exact (fit_length_facts vs weights). Qed.

Lemma wsum_app a b c d :
  length a = length c -> wsum (a ++ b) (c ++ d) == wsum a c + wsum b d.
Proof.
  revert c. induction a as [|x a IH]; intros [|y c] H; simpl in *; try lia.
  - ring.
  - rewrite IH by lia. ring.
Qed.

Lemma wsum_repeat ws m : wsum ws (repeat m (length ws)) == Qsum ws * m.
Proof. induction ws as [|w ws IH]; simpl; [ring|]. unfold Qsum in *. simpl. rewrite IH. ring. Qed.

Lemma Qsum_app l1 l2 : Qsum (l1 ++ l2) == Qsum l1 + Qsum l2.
Proof. induction l1 as [|x l IH]; unfold Qsum in *; simpl; [ring|]. rewrite IH. ring. Qed.

Lemma Qsum_nonneg (l : list Q) : Forall (fun w => 0 < w) l -> 0 <= Qsum l.
Proof.
  induction l as [|w l IH]; intros H; unfold Qsum in *; simpl; [lra|].
  inversion H; subst. specialize (IH H3). lra.
Qed.

Lemma Qsum_pos (l : list Q) : Forall (fun w => 0 < w) l -> l <> [] -> 0 < Qsum l.
Proof.
  destruct l as [|w l]; intros H Hne; [now contradiction Hne|].
  inversion H; subst. pose proof (Qsum_nonneg l H3). unfold Qsum in *. simpl. lra.
Qed.

Lemma block_mean_times (b : list IsoPoint) :
  Forall (fun p => 0 < weight p) b ->
  Qsum (map weight b) * block_mean b == Qsum (map (fun p => value p * weight p) b).
Proof.
  intros Hb. unfold block_mean. destruct b as [|p b]; [reflexivity|].
  assert (Hpos : 0 < Qsum (map weight (p :: b))).
  { apply Qsum_pos; [|discriminate]. apply Forall_map. exact Hb. }
  destruct (Qeq_bool _ 0) eqn:E; [apply Qeq_bool_iff in E; lra|].
  field. lra.
Qed.

Lemma wsum_blocks (B : list (list IsoPoint)) :
  Forall (fun p => 0 < weight p) (concat B) ->
  wsum (map weight (concat B)) (flat_map (fun b => repeat (block_mean b) (length b)) B)
  == wsum (map weight (concat B)) (map value (concat B)).
Proof.
  induction B as [|b B IH]; intros H; simpl; [reflexivity|].
  simpl in H. rewrite Forall_app in H. destruct H as [Hb HB].
  rewrite !map_app, !wsum_app by (rewrite ?length_map, ?repeat_length; reflexivity).
  rewrite IH by exact HB.
  assert (G : forall l : list IsoPoint, wsum (map weight l) (map value l)
                                        == Qsum (map (fun p => value p * weight p) l)).
  { induction l as [|x l IHl]; unfold Qsum in *; simpl; [reflexivity|]. rewrite IHl. ring. }
  pose proof (block_mean_times b Hb) as Hm.
  rewrite <- (length_map weight b), wsum_repeat, (G b), Hm. reflexivity.
Qed.

(** X6: With one positive weight per value, [fit] preserves the weighted sum of the values (each pooled block is replaced by its weighted mean). *)
Theorem fit_preserves_weighted_sum (vs ws out : list Q)
  (Hl : length ws = length vs) (Hw : Forall (fun w => 0 < w) ws)
  (Hf : fit vs (Some ws) = Ok out) :
  wsum ws out == wsum ws vs.
Proof.
  destruct (fit_blocks vs ws out Hl Hf) as [B [HB ->]].
  assert (Hws : map weight (concat B) = ws).
  { rewrite HB, map_map. simpl. rewrite <- Hl. apply map_nth_seq_self. }
  assert (Hvs : map value (concat B) = vs).
  { rewrite HB, map_map. simpl. apply map_nth_seq_self. }
  rewrite <- Hws at 1 2. rewrite wsum_blocks.
  - rewrite Hvs. reflexivity.
  - apply Forall_map. rewrite Hws. exact Hw.
Qed.

Lemma block_mean_bounds (b : list IsoPoint) lo hi :
  Forall (fun p => 0 < weight p) b -> b <> [] ->
  Forall (fun p => lo <= value p <= hi) b -> lo <= block_mean b <= hi.
Proof.
  intros Hw Hne Hv.
  assert (Hpos : 0 < Qsum (map weight b)) by (apply Qsum_pos; [apply Forall_map, Hw|now destruct b]).
  assert (Hs : lo * Qsum (map weight b) <= Qsum (map (fun p => value p * weight p) b)
               <= hi * Qsum (map weight b)).
  { clear Hne Hpos. induction b as [|p b IH]; unfold Qsum in *; simpl; [lra|].
    inversion Hw; inversion Hv; subst. destruct (IH H2 H6) as [IH1 IH2].
    destruct H5 as [Hl Hh].
    assert (lo * weight p <= value p * weight p) by (apply Qmult_le_compat_r; lra).
    assert (value p * weight p <= hi * weight p) by (apply Qmult_le_compat_r; lra).
    lra. }
  unfold block_mean. destruct (Qeq_bool _ 0) eqn:E; [apply Qeq_bool_iff in E; lra|].
  split.
  - apply Qle_shift_div_l; [exact Hpos|]. lra.
  - apply Qle_shift_div_r; [exact Hpos|]. lra.
Qed.

Lemma fit_range_facts (vs : list Q) (weights : option (list Q)) (lo hi : Q) (out : list Q)
  (Hw : match weights with
        | None => True
        | Some ws => length ws = length vs /\ Forall (fun w => 0 < w) ws
        end)
  (Hv : Forall (fun v => lo <= v <= hi) vs)
  (Hf : fit vs weights = Ok out) :
  Forall (fun y => lo <= y <= hi) out.
Proof.
  assert (Hmain : forall ws, length ws = length vs -> Forall (fun w => 0 < w) ws ->
                  fit vs (Some ws) = Ok out -> Forall (fun y => lo <= y <= hi) out).
  { intros ws Hl Hpos E.
    destruct (fit_blocks vs ws out Hl E) as [B [HB ->]].
    assert (Hws : map weight (concat B) = ws).
    { rewrite HB, map_map. simpl. rewrite <- Hl. apply map_nth_seq_self. }
    assert (Hvs : map value (concat B) = vs).
    { rewrite HB, map_map. simpl. apply map_nth_seq_self. }
    apply Forall_forall. intros y Hy. apply in_flat_map in Hy as [b [Hb Hy]].
    destruct b as [|p b']; [destruct Hy|].
    apply repeat_spec in Hy. subst y.
    apply block_mean_bounds; [| discriminate |];
      apply Forall_forall; intros q Hq;
      assert (Hc : In q (concat B)) by (apply in_concat; eauto).
    - rewrite Forall_forall in Hpos. apply Hpos. rewrite <- Hws. now apply in_map.
    - rewrite Forall_forall in Hv. apply Hv. rewrite <- Hvs. now apply in_map. }
  destruct weights as [ws|].
  - destruct Hw as [Hl Hpos]. now apply (Hmain ws).
  - apply (Hmain (repeat 1 (length vs))); [apply repeat_length| |exact Hf].
    apply Forall_forall. intros x Hx. apply repeat_spec in Hx. subst. reflexivity.
Qed.

(** X7: With omitted weights or one positive weight per value, every fitted value lies within any interval containing all the input values. *)
Theorem fit_within_input_range (vs : list Q) (weights : option (list Q)) (lo hi : Q) (out : list Q)
  (Hw : match weights with
        | None => True
        | Some ws => length ws = length vs /\ Forall (fun w => 0 < w) ws
        end)
  (Hv : Forall (fun v => lo <= v <= hi) vs)
  (Hf : fit vs weights = Ok out) :
  Forall (fun y => lo <= y <= hi) out.
Proof. exact (fit_range_facts vs weights lo hi out Hw Hv Hf). Qed.

Lemma dict_get_set_eq {V} (d : dict V) k v : dict_get (dict_set d k v) k = Ok v.
Proof.
  induction d as [|[k' v'] d IH]; simpl; [now rewrite Z.eqb_refl|].
  destruct (Z.eqb_spec k k'); simpl.
  - subst. now rewrite Z.eqb_refl.
  - apply Z.eqb_neq in n. now rewrite n.
Qed.

Lemma dict_get_set_neq {V} (d : dict V) k k' v :
  k' <> k -> dict_get (dict_set d k v) k' = dict_get d k'.
Proof.
  intros Hne. induction d as [|[k0 v0] d IH]; simpl.
  - apply Z.eqb_neq in Hne. now rewrite Hne.
  - destruct (Z.eqb_spec k k0); simpl.
    + subst. apply Z.eqb_neq in Hne. now rewrite Hne.
    + destruct (Z.eqb k' k0); auto.
Qed.

Lemma dict_keys_set_in {V} (d : dict V) k v :
  In k (dict_keys d) -> dict_keys (dict_set d k v) = dict_keys d.
Proof.
  unfold dict_keys. induction d as [|[k0 v0] d IH]; simpl; [intros []|].
  intros H. destruct (Z.eqb_spec k k0); simpl; [reflexivity|].
  destruct H as [H|H]; [congruence|]. now rewrite IH.
Qed.

Lemma dict_keys_set {V} (d : dict V) k v x :
  In x (dict_keys (dict_set d k v)) <-> x = k \/ In x (dict_keys d).
Proof.
  unfold dict_keys. induction d as [|[k0 v0] d IH]; simpl; [firstorder congruence|].
  destruct (Z.eqb_spec k k0); simpl; [subst; firstorder congruence|]. rewrite IH. firstorder congruence.
Qed.

Lemma dict_keys_set_nodup {V} (d : dict V) k v :
  NoDup (dict_keys d) -> NoDup (dict_keys (dict_set d k v)).
Proof.
  unfold dict_keys. induction d as [|[k0 v0] d IH]; simpl; intros H.
  - constructor; [intros []|constructor].
  - inversion H; subst. destruct (Z.eqb_spec k k0); simpl; constructor; auto.
    fold (dict_keys (dict_set d k v)). rewrite dict_keys_set. intros [->|Hx]; auto.
Qed.

Lemma dict_set_In {V} (d : dict V) k v k' v' :
  In (k', v') (dict_set d k v) -> (k' = k /\ v' = v) \/ In (k', v') d.
Proof.
  induction d as [|[k0 v0] d IH]; simpl.
  - intros [H|[]]. inversion H; auto.
  - destruct (Z.eqb_spec k k0); simpl; intros [H|H].
    + inversion H; subst. auto.
    + auto.
    + auto.
    + destruct (IH H); auto.
Qed.

Lemma dict_get_ok {V} (d : dict V) k : In k (dict_keys d) -> exists v, dict_get d k = Ok v.
Proof.
  unfold dict_keys. induction d as [|[k0 v0] d IH]; simpl; [intros []|].
  intros H. destruct (Z.eqb_spec k k0); eauto. destruct H as [H|H]; [congruence|auto].
Qed.

Lemma dict_get_missing {V} (d : dict V) k : ~ In k (dict_keys d) -> dict_get d k = Err KeyError.
Proof.
  unfold dict_keys. induction d as [|[k0 v0] d IH]; simpl; [reflexivity|].
  intros H. destruct (Z.eqb_spec k k0); [subst; tauto|]. apply IH. tauto.
Qed.

Lemma dict_get_key {V} (d : dict V) k v : dict_get d k = Ok v -> In k (dict_keys d).
Proof. intros H. apply dict_get_In in H. unfold dict_keys. now apply (in_map fst) in H. Qed.

Lemma insert_Z_In x y l : In x (insert_Z y l) <-> x = y \/ In x l.
Proof.
  induction l as [|a l IH]; simpl; [firstorder congruence|].
  destruct (Z.ltb y a); simpl; [firstorder congruence|]. rewrite IH. firstorder congruence.
Qed.

Lemma sorted_Z_In x l : In x (sorted_Z l) <-> In x l.
Proof.
  unfold sorted_Z.
  assert (G : forall acc, In x (fold_left (fun acc y => insert_Z y acc) l acc) <-> In x acc \/ In x l).
  { induction l as [|a l IH]; intros acc; simpl; [tauto|].
    rewrite IH, insert_Z_In. firstorder congruence. }
  rewrite G. simpl. tauto.
Qed.

Lemma insert_Z_length x l : length (insert_Z x l) = S (length l).
Proof. induction l as [|a l IH]; simpl; auto. destruct (Z.ltb x a); simpl; auto. Qed.

Lemma sorted_Z_length l : length (sorted_Z l) = length l.
Proof.
  unfold sorted_Z.
  assert (G : forall acc, length (fold_left (fun acc y => insert_Z y acc) l acc) = (length acc + length l)%nat).
  { induction l as [|a l IH]; intros acc; simpl; [lia|]. rewrite IH, insert_Z_length. simpl. lia. }
  rewrite G. reflexivity.
Qed.

Lemma insert_Z_sorted x l : Sorted Z.le l -> Sorted Z.le (insert_Z x l).
Proof.
  induction l as [|a l IH]; simpl; intros H; [repeat constructor|].
  destruct (Z.ltb_spec x a).
  - constructor; [exact H|]. constructor. lia.
  - apply Sorted_inv in H as [Hl Hr]. constructor; [now apply IH|].
    destruct l as [|b l]; simpl; [constructor; lia|].
    inversion Hr; subst. destruct (Z.ltb x b); constructor; lia.
Qed.

Lemma sorted_Z_sorted l : Sorted Z.le (sorted_Z l).
Proof.
  unfold sorted_Z.
  assert (G : forall acc, Sorted Z.le acc -> Sorted Z.le (fold_left (fun acc y => insert_Z y acc) l acc)).
  { induction l as [|a l IH]; intros acc H; simpl; auto. apply IH, insert_Z_sorted, H. }
  apply G. constructor.
Qed.

Lemma init_bins_fold : forall edges (d : dict BinStat),
  NoDup (dict_keys d) -> (forall k b, In (k, b) d -> b = fresh_bin k) ->
  let d' := fold_left (fun d t => dict_set d t (fresh_bin t)) edges d in
  NoDup (dict_keys d') /\ (forall k b, In (k, b) d' -> b = fresh_bin k) /\
  (forall x, In x (dict_keys d') <-> In x (dict_keys d) \/ In x edges).
Proof.
  induction edges as [|t edges IH]; intros d Hn Hb; simpl.
  - repeat split; auto; intros; tauto.
  - destruct (IH (dict_set d t (fresh_bin t))) as [H1 [H2 H3]].
    + now apply dict_keys_set_nodup.
    + intros k b Hk. destruct (dict_set_In _ _ _ _ _ Hk) as [[-> ->]|H]; auto.
    + split; [exact H1|]. split; [exact H2|]. intros y. rewrite H3, dict_keys_set. firstorder congruence.
Qed.

(** X8: [TempoCalibrator] with no bins and [n_bins = 1] raises [ZeroDivisionError]; for any other [n_bins] it creates one fresh bin (centre at its key, ema 5.0, count 0) per distinct bin edge, with no duplicate keys; bins given by the caller are kept as they are. *)
Theorem TempoCalibrator_new_bins (tmin tmax nb : Z) (lam af asl : Q) :
  TempoCalibrator_new tmin tmax 1 lam af asl [] = Err ZeroDivisionError /\
  ((nb <> 1)%Z -> exists cal edges,
     TempoCalibrator_new tmin tmax nb lam af asl [] = Ok cal /\
     bin_edges tmin tmax nb = Ok edges /\
     NoDup (dict_keys (bins cal)) /\
     (forall k, In k (dict_keys (bins cal)) <-> In k edges) /\
     (forall k b, dict_get (bins cal) k = Ok b ->
        tempo_center b = k /\ ema_sec b == 5 /\ count b = 0%Z)) /\
  (forall bs, bs <> [] -> exists cal, TempoCalibrator_new tmin tmax nb lam af asl bs = Ok cal
                                      /\ bins cal = bs).
Proof.
  split; [reflexivity|]. split.
  - intros Hnb. destruct (bin_edges_ok tmin tmax nb) as [edges Ee]; [lia|].
    unfold TempoCalibrator_new. rewrite Ee. cbn [bind].
    destruct (init_bins_fold edges []) as [H1 [H2 H3]]; [constructor|intros ? ? []|].
    eexists. exists edges. split; [reflexivity|]. split; [reflexivity|]. simpl.
    split; [exact H1|]. split.
    + intros k. rewrite H3. simpl. tauto.
    + intros k b Hk. apply dict_get_In, H2 in Hk. subst. simpl. repeat split; reflexivity.
  - intros bs Hbs. unfold TempoCalibrator_new. destruct bs as [|b bs]; [now contradiction Hbs|].
    cbn [bind]. eexists. split; reflexivity.
Qed.

Lemma nearest_fold (tempo : Z) : forall ks m,
  (fold_left (nc_step tempo) ks m = m /\
     forall k, In k ks -> (Z.abs (m - tempo) <= Z.abs (k - tempo))%Z) \/
  (exists pre post, ks = pre ++ fold_left (nc_step tempo) ks m :: post /\
     (Z.abs (fold_left (nc_step tempo) ks m - tempo) < Z.abs (m - tempo))%Z /\
     (forall k, In k pre -> (Z.abs (fold_left (nc_step tempo) ks m - tempo) < Z.abs (k - tempo))%Z) /\
     (forall k, In k post -> (Z.abs (fold_left (nc_step tempo) ks m - tempo) <= Z.abs (k - tempo))%Z)).
Proof.
  induction ks as [|c ks IH]; intros m; simpl.
  - left. split; [reflexivity|]. intros k [].
  - destruct (Z.ltb_spec (Z.abs (c - tempo)) (Z.abs (m - tempo))) as [Hlt|Hge].
    + assert (Hs : nc_step tempo m c = c) by (unfold nc_step; now apply Z.ltb_lt in Hlt as ->).
      rewrite Hs. right.
      destruct (IH c) as [[Hr Hk]|[pre [post [Hks [Hr [Hpre Hpost]]]]]].
      * exists [], ks. rewrite Hr. simpl. repeat split; auto. intros k [].
      * exists (c :: pre), post. rewrite Hks at 1. repeat split; auto; [lia|].
        intros k [<-|Hk]; auto.
    + assert (Hs : nc_step tempo m c = m) by (unfold nc_step; now apply Z.ltb_ge in Hge as ->).
      rewrite Hs.
      destruct (IH m) as [[Hr Hk]|[pre [post [Hks [Hr [Hpre Hpost]]]]]].
      * left. rewrite Hr. split; [reflexivity|]. intros k [<-|Hk']; auto.
      * right. exists (c :: pre), post. rewrite Hks at 1. repeat split; auto.
        intros k [<-|Hk]; auto. lia.
Qed.

Lemma nearest_center_facts (cal : TempoCalibrator) (tempo : Z) :
  (bins cal = [] -> nearest_center cal tempo = Err ValueError) /\
  (bins cal <> [] -> exists c pre post,
     nearest_center cal tempo = Ok c /\ dict_keys (bins cal) = pre ++ c :: post /\
     (forall k, In k pre -> (Z.abs (c - tempo) < Z.abs (k - tempo))%Z) /\
     (forall k, In k post -> (Z.abs (c - tempo) <= Z.abs (k - tempo))%Z)).
Proof.
  unfold nearest_center. split; [intros ->; reflexivity|]. intros Hne.
  destruct (dict_keys (bins cal)) as [|k ks] eqn:Ek.
  - unfold dict_keys in Ek. destruct (bins cal); [contradiction|discriminate].
  - change (fun m c => if Z.ltb (Z.abs (c - tempo)) (Z.abs (m - tempo)) then c else m)
      with (nc_step tempo).
    destruct (nearest_fold tempo ks k) as [[Hr Hk]|[pre [post [Hks [Hr [Hpre Hpost]]]]]].
    + exists k, [], ks. rewrite Hr. split; [reflexivity|]. split; [reflexivity|].
      split; [intros ? []|exact Hk].
    + exists (fold_left (nc_step tempo) ks k), (k :: pre), post.
      split; [reflexivity|]. split; [simpl; f_equal; exact Hks|]. split; [|exact Hpost].
      intros k' [<-|Hk']; auto.
Qed.

(** X9: [nearest_center] raises [ValueError] on a calibrator without bins; otherwise it returns the first key, in dict order, at minimal distance from the tempo. *)
Theorem nearest_center_spec (cal : TempoCalibrator) (tempo : Z) :
  (bins cal = [] -> nearest_center cal tempo = Err ValueError) /\
  (bins cal <> [] -> exists c pre post,
     nearest_center cal tempo = Ok c /\ dict_keys (bins cal) = pre ++ c :: post /\
     (forall k, In k pre -> (Z.abs (c - tempo) < Z.abs (k - tempo))%Z) /\
     (forall k, In k post -> (Z.abs (c - tempo) <= Z.abs (k - tempo))%Z)).
Proof. exact (nearest_center_facts cal tempo). Qed.

Lemma nearest_center_key cal t c : nearest_center cal t = Ok c -> In c (dict_keys (bins cal)).
Proof.
  intros E. destruct (bins cal) eqn:Eb.
  - unfold nearest_center in E. rewrite Eb in E. discriminate.
  - destruct (proj2 (nearest_center_facts cal t)) as [c' [pre [post [E' [Hk _]]]]];
      [rewrite Eb; discriminate|].
    rewrite E in E'. inversion E'; subst. rewrite Eb in *. rewrite Hk.
    apply in_or_app. right. now left.
Qed.

(** X10: [update] raises [ValueError] exactly on a calibrator without bins; otherwise it increments the count of the nearest bin, moves its ema by the exponential average with [ema_lambda], keeps its centre, and leaves the keys and every other bin unchanged. *)
Theorem update_spec (cal : TempoCalibrator) (t : Z) (obs : Q) :
  (bins cal = [] -> update cal t obs = Err ValueError) /\
  (bins cal <> [] -> exists cal', update cal t obs = Ok cal') /\
  (forall cal', update cal t obs = Ok cal' ->
     exists c b b', nearest_center cal t = Ok c /\ dict_get (bins cal) c = Ok b /\
       dict_get (bins cal') c = Ok b' /\
       count b' = (count b + 1)%Z /\ tempo_center b' = tempo_center b /\
       ema_sec b' == (1 - ema_lambda cal) * ema_sec b + ema_lambda cal * obs /\
       dict_keys (bins cal') = dict_keys (bins cal) /\
       (forall k, k <> c -> dict_get (bins cal') k = dict_get (bins cal) k)).
Proof.
  split; [intros H; unfold update, nearest_center; now rewrite H|].
  split.
  - intros Hne. destruct (proj2 (nearest_center_facts cal t) Hne) as [c [_ [_ [E _]]]].
    destruct (dict_get_ok (bins cal) c) as [b Eb]; [exact (nearest_center_key cal t c E)|].
    unfold update. rewrite E. cbn [bind]. rewrite Eb. cbn [bind]. eexists. reflexivity.
  - intros cal' Eu. unfold update in Eu.
    destruct (nearest_center cal t) as [c|] eqn:E; cbn [bind] in Eu; [|discriminate].
    destruct (dict_get (bins cal) c) as [b|] eqn:Eb; cbn [bind] in Eu; [|discriminate].
    inversion Eu; subst; clear Eu. eexists c, b, _. simpl.
    split; [reflexivity|]. split; [exact Eb|]. split; [apply dict_get_set_eq|].
    simpl. split; [reflexivity|]. split; [reflexivity|]. split; [reflexivity|].
    split; [apply dict_keys_set_in, (dict_get_key _ _ _ Eb)|].
    intros k Hk. now apply dict_get_set_neq.
Qed.

Lemma Qmult_mono_l (z x y : Q) : 0 <= z -> x <= y -> z * x <= z * y.
Proof. intros Hz Hxy. rewrite !(Qmult_comm z). now apply Qmult_le_compat_r. Qed.

(** X11: With [ema_lambda] in [0, 1], if every bin's ema and the observation lie in an interval, every bin's ema still lies in it after [update]. *)
Theorem update_ema_within (cal cal' : TempoCalibrator) (t : Z) (obs lo hi : Q)
  (Hlam : 0 <= ema_lambda cal <= 1) (Hobs : lo <= obs <= hi)
  (Hbins : Forall (fun kb => lo <= ema_sec (snd kb) <= hi) (bins cal))
  (Hu : update cal t obs = Ok cal') :
  Forall (fun kb => lo <= ema_sec (snd kb) <= hi) (bins cal') /\ ema_lambda cal' = ema_lambda cal.
Proof.
  unfold update in Hu.
  destruct (nearest_center cal t) as [c|] eqn:E; cbn [bind] in Hu; [|discriminate].
  destruct (dict_get (bins cal) c) as [b|] eqn:Eb; cbn [bind] in Hu; [|discriminate].
  inversion Hu; subst; clear Hu. simpl. split; [|reflexivity].
  rewrite Forall_forall in *. intros [k b'] Hk.
  destruct (dict_set_In _ _ _ _ _ Hk) as [[-> ->]|H]; [|exact (Hbins _ H)].
  simpl. apply dict_get_In, Hbins in Eb. simpl in Eb.
  set (lam := ema_lambda cal) in *. set (e := ema_sec b) in *.
  assert (H1 : (1 - lam) * lo <= (1 - lam) * e) by (apply Qmult_mono_l; lra).
  assert (H2 : (1 - lam) * e <= (1 - lam) * hi) by (apply Qmult_mono_l; lra).
  assert (H3 : lam * lo <= lam * obs) by (apply Qmult_mono_l; lra).
  assert (H4 : lam * obs <= lam * hi) by (apply Qmult_mono_l; lra).
  split; lra.
Qed.

Lemma map_res_length {A B} (f : A -> result B) : forall l out,
  map_res f l = Ok out -> length out = length l.
Proof.
  induction l as [|a l IH]; simpl; intros out E; [now inversion E|].
  destruct (f a); cbn [bind] in E; [|discriminate].
  destruct (map_res f l) as [ys|] eqn:Er; cbn [bind] in E; [|discriminate].
  inversion E; subst. simpl. now rewrite (IH ys eq_refl).
Qed.

Lemma list_set_Forall {A} (P : A -> Prop) : forall l i x l',
  Forall P l -> P x -> list_set l i x = Ok l' -> Forall P l' /\ length l' = length l.
Proof.
  induction l as [|a l IH]; intros [|i] x l' Hl Hx E; simpl in E; try discriminate.
  - inversion E; subst. inversion Hl; subst. split; [constructor; auto|reflexivity].
  - destruct (list_set l i x) as [r|] eqn:Er; cbn [bind] in E; [|discriminate].
    inversion E; subst. inversion Hl; subst.
    destruct (IH i x r H2 Hx Er) as [Hf Hl']. split; [constructor; auto|simpl; lia].
Qed.

Lemma list_last_In {A} (l : list A) y : list_last l = Ok y -> In y l.
Proof.
  unfold list_last. destruct (rev l) as [|z r] eqn:E; intros H; [discriminate|].
  inversion H; subst. apply in_rev. rewrite E. now left.
Qed.

Lemma combine_fst {A B} : forall (l1 : list A) (l2 : list B),
  (length l1 <= length l2)%nat -> map fst (combine l1 l2) = l1.
Proof.
  induction l1 as [|a l1 IH]; intros [|b l2] H; simpl in *; try lia; auto.
  f_equal. apply IH. lia.
Qed.

Lemma combine_snd {A B} : forall (l1 : list A) (l2 : list B),
  (length l2 <= length l1)%nat -> map snd (combine l1 l2) = l2.
Proof.
  induction l1 as [|a l1 IH]; intros [|b l2] H; simpl in *; try lia; auto.
  f_equal. apply IH. lia.
Qed.

Lemma Forall_in_range_get {A} (P : A -> Prop) l i x : Forall P l -> list_get l i = Ok x -> P x.
Proof. intros H E. rewrite Forall_forall in H. apply H. eapply list_get_In; eauto. Qed.

(** What [smoothed_curve] fits: one value and one weight per center, the
    weights at least 1, and every value drawn from a bin or an anchor. *)
Lemma smoothed_curve_inv (cal : TempoCalibrator) (curve : list (Z * Q)) :
  smoothed_curve cal = Ok curve ->
  exists values weights fitted,
    map fst curve = sorted_Z (dict_keys (bins cal)) /\ map snd curve = fitted /\
    fit values (Some (map inject_Z weights)) = Ok fitted /\
    length values = length (bins cal) /\ length weights = length values /\
    length fitted = length values /\
    Forall (fun w => 1 <= w)%Z weights /\
    (forall lo hi, Forall (fun kb => lo <= ema_sec (snd kb) <= hi) (bins cal) ->
       lo <= anchor_fast_sec cal -> anchor_slow_sec cal <= hi ->
       Forall (fun v => lo <= v <= hi) values).
Proof.
  unfold smoothed_curve. set (centers := sorted_Z (dict_keys (bins cal))). intros E.
  destruct (map_res (fun c => b <- dict_get (bins cal) c ;; Ok (ema_sec b)) centers)
    as [vals|] eqn:Ev; cbn [bind] in E; [|discriminate].
  destruct (map_res (fun c => b <- dict_get (bins cal) c ;; Ok (Z.max 1 (count b))) centers)
    as [ws|] eqn:Ew; cbn [bind] in E; [|discriminate].
  destruct (list_get vals 0) as [v0|] eqn:Ev0; cbn [bind] in E; [|discriminate].
  destruct (list_set vals 0 _) as [vals1|] eqn:Ev1; cbn [bind] in E; [|discriminate].
  destruct (list_get ws 0) as [w0|] eqn:Ew0; cbn [bind] in E; [|discriminate].
  destruct (list_set ws 0 _) as [ws1|] eqn:Ew1; cbn [bind] in E; [|discriminate].
  destruct (list_last vals1) as [vl|] eqn:Evl; cbn [bind] in E; [|discriminate].
  destruct (list_set vals1 _ _) as [vals2|] eqn:Ev2; cbn [bind] in E; [|discriminate].
  destruct (list_last ws1) as [wl|] eqn:Ewl; cbn [bind] in E; [|discriminate].
  destruct (list_set ws1 _ _) as [ws2|] eqn:Ew2; cbn [bind] in E; [|discriminate].
  destruct (fit vals2 (Some (map inject_Z ws2))) as [fitted|] eqn:Ef; cbn [bind] in E; [|discriminate].
  inversion E; subst curve; clear E.
  assert (Lc : length centers = length (bins cal))
    by (unfold centers, dict_keys; now rewrite sorted_Z_length, length_map).
  pose proof (map_res_length _ _ _ Ev) as Lv. pose proof (map_res_length _ _ _ Ew) as Lw.
  (* weights *)
  assert (Hw : Forall (fun w => 1 <= w)%Z ws).
  { apply Forall_forall. intros w Hw. destruct (map_res_In _ _ _ Ew w Hw) as [c [_ Ec]].
    destruct (dict_get (bins cal) c); cbn [bind] in Ec; [|discriminate]. inversion Ec. lia. }
  assert (Hw0 : (1 <= w0)%Z) by exact (Forall_in_range_get _ _ _ _ Hw Ew0).
  destruct (list_set_Forall _ _ _ _ _ Hw (ltac:(lia) : (1 <= Z.max w0 50)%Z) Ew1) as [Hw1 Lw1].
  assert (Hwl : (1 <= wl)%Z) by (rewrite Forall_forall in Hw1; apply Hw1, list_last_In, Ewl).
  destruct (list_set_Forall _ _ _ _ _ Hw1 (ltac:(lia) : (1 <= Z.max wl 50)%Z) Ew2) as [Hw2 Lw2].
  (* values *)
  destruct (list_set_Forall (fun _ => True) _ _ _ _ ltac:(apply Forall_forall; auto) I Ev1) as [_ Lv1].
  destruct (list_set_Forall (fun _ => True) _ _ _ _ ltac:(apply Forall_forall; auto) I Ev2) as [_ Lv2].
  destruct (proj1 (fit_length_facts vals2 (Some (map inject_Z ws2)))) as [f' [Ef' Lf]];
    [rewrite length_map; lia|].
  rewrite Ef in Ef'. inversion Ef'; subst f'; clear Ef'.
  exists vals2, ws2, fitted.
  split; [apply combine_fst; lia|]. split; [apply combine_snd; lia|]. split; [exact Ef|].
  split; [lia|]. split; [lia|]. split; [lia|]. split; [exact Hw2|].
  intros lo hi Hb Haf Has.
  assert (Hv : Forall (fun v => lo <= v <= hi) vals).
  { apply Forall_forall. intros v Hv. destruct (map_res_In _ _ _ Ev v Hv) as [c [_ Ec]].
    destruct (dict_get (bins cal) c) as [b|] eqn:Eb; cbn [bind] in Ec; [|discriminate].
    inversion Ec; subst. rewrite Forall_forall in Hb. apply dict_get_In, Hb in Eb. exact Eb. }
  pose proof (Forall_in_range_get _ _ _ _ Hv Ev0) as Hv0.
  assert (Hm : lo <= pymin v0 (anchor_fast_sec cal) <= hi).
  { destruct (pymin_le v0 (anchor_fast_sec cal)). unfold pymin in *.
    destruct (Qltb _ _) eqn:Eq; [apply Qltb_true in Eq|]; lra. }
  destruct (list_set_Forall (fun v => lo <= v <= hi) _ _ _ _ Hv Hm Ev1) as [Hv1 _].
  assert (Hvl : lo <= vl <= hi) by (rewrite Forall_forall in Hv1; apply Hv1, list_last_In, Evl).
  assert (HM : lo <= pymax vl (anchor_slow_sec cal) <= hi).
  { destruct (pymax_ge vl (anchor_slow_sec cal)). unfold pymax in *.
    destruct (Qltb _ _) eqn:Eq; [apply Qltb_true in Eq|]; lra. }
  destruct (list_set_Forall (fun v => lo <= v <= hi) _ _ _ _ Hv1 HM Ev2) as [Hv2' _].
  exact Hv2'.
Qed.

Lemma list_get_ok {A} (l : list A) i : (i < length l)%nat -> exists x, list_get l i = Ok x.
Proof.
  intros H. unfold list_get. destruct (nth_error l i) eqn:E; [eauto|].
  apply nth_error_None in E. lia.
Qed.

Lemma smoothed_curve_facts (cal : TempoCalibrator) :
  (bins cal = [] -> smoothed_curve cal = Err IndexError) /\
  (bins cal <> [] -> exists curve, smoothed_curve cal = Ok curve /\
     map fst curve = sorted_Z (dict_keys (bins cal)) /\
     Sorted Z.le (map fst curve) /\ length curve = length (bins cal)).
Proof.
  split; [intros H; unfold smoothed_curve; rewrite H; reflexivity|].
  intros Hne.
  assert (Hex : exists curve, smoothed_curve cal = Ok curve).
  { unfold smoothed_curve. set (centers := sorted_Z (dict_keys (bins cal))).
    assert (Lc : length centers = length (bins cal))
      by (unfold centers, dict_keys; now rewrite sorted_Z_length, length_map).
    assert (Lpos : (0 < length centers)%nat) by (rewrite Lc; destruct (bins cal); [contradiction|simpl; lia]).
    assert (Hk : forall c, In c centers -> exists b, dict_get (bins cal) c = Ok b)
      by (intros c Hc; apply dict_get_ok; now apply sorted_Z_In).
    destruct (map_res_ok (fun c => b <- dict_get (bins cal) c ;; Ok (ema_sec b)) centers)
      as [vals Ev].
    { intros c Hc. destruct (Hk c Hc) as [b Eb]. rewrite Eb. eexists. reflexivity. }
    destruct (map_res_ok (fun c => b <- dict_get (bins cal) c ;; Ok (Z.max 1 (count b))) centers)
      as [ws Ew].
    { intros c Hc. destruct (Hk c Hc) as [b Eb]. rewrite Eb. eexists. reflexivity. }
    pose proof (map_res_length _ _ _ Ev) as Lv. pose proof (map_res_length _ _ _ Ew) as Lw.
    rewrite Ev, Ew. cbn [bind].
    destruct (list_get_ok vals 0) as [v0 Ev0]; [lia|]. rewrite Ev0. cbn [bind].
    destruct (list_set_ok vals 0 (pymin v0 (anchor_fast_sec cal))) as [vals1 [Ev1 Lv1]]; [lia|].
    rewrite Ev1. cbn [bind].
    destruct (list_get_ok ws 0) as [w0 Ew0]; [lia|]. rewrite Ew0. cbn [bind].
    destruct (list_set_ok ws 0 (Z.max w0 50)) as [ws1 [Ew1 Lw1]]; [lia|].
    rewrite Ew1. cbn [bind].
    destruct (list_last_ok vals1) as [vl [Evl _]]; [intros H; rewrite H in Lv1; simpl in Lv1; lia|].
    rewrite Evl. cbn [bind].
    destruct (list_set_ok vals1 (length vals1 - 1) (pymax vl (anchor_slow_sec cal)))
      as [vals2 [Ev2 Lv2]]; [lia|]. rewrite Ev2. cbn [bind].
    destruct (list_last_ok ws1) as [wl [Ewl _]]; [intros H; rewrite H in Lw1; simpl in Lw1; lia|].
    rewrite Ewl. cbn [bind].
    destruct (list_set_ok ws1 (length ws1 - 1) (Z.max wl 50)) as [ws2 [Ew2 Lw2]]; [lia|].
    rewrite Ew2. cbn [bind].
    destruct (proj1 (fit_length_facts vals2 (Some (map inject_Z ws2)))) as [f [Ef _]];
      [rewrite length_map; lia|].
    rewrite Ef. cbn [bind]. eexists. reflexivity. }
  destruct Hex as [curve Ec].
  destruct (smoothed_curve_inv cal curve Ec) as [vals [ws [fitted [Hf [Hs [_ [Lv [_ [Lf _]]]]]]]]].
  exists curve. split; [exact Ec|]. split; [exact Hf|]. split; [rewrite Hf; apply sorted_Z_sorted|].
  rewrite <- (length_map fst curve), Hf, sorted_Z_length. unfold dict_keys. apply length_map.
Qed.

(** X12: [smoothed_curve] raises [IndexError] on a calibrator without bins; otherwise it returns one point per bin, at the bin keys in ascending order. *)
Theorem smoothed_curve_spec (cal : TempoCalibrator) :
  (bins cal = [] -> smoothed_curve cal = Err IndexError) /\
  (bins cal <> [] -> exists curve, smoothed_curve cal = Ok curve /\
     map fst curve = sorted_Z (dict_keys (bins cal)) /\
     Sorted Z.le (map fst curve) /\ length curve = length (bins cal)).
Proof. exact (smoothed_curve_facts cal). Qed.

Lemma interp_weight_range (t c0 c1 : Z) :
  (c0 < t)%Z -> (t <= c1)%Z ->
  0 <= inject_Z (t - c0) / inject_Z (c1 - c0) <= 1.
Proof.
  intros H0 H1.
  assert (Hd : 0 < inject_Z (c1 - c0)) by (unfold Qlt; simpl; lia).
  split.
  - apply Qle_shift_div_l; [exact Hd|]. rewrite Qmult_0_l. unfold Qle; simpl; lia.
  - apply Qle_shift_div_r; [exact Hd|]. rewrite Qmult_1_l. unfold Qle; simpl; lia.
Qed.

Lemma convex_range (lo hi s0 s1 a : Q) :
  0 <= a <= 1 -> lo <= s0 <= hi -> lo <= s1 <= hi -> lo <= (1 - a) * s0 + a * s1 <= hi.
Proof.
  intros Ha H0 H1.
  assert (lo * (1 - a) <= s0 * (1 - a)) by (apply Qmult_le_compat_r; lra).
  assert (s0 * (1 - a) <= hi * (1 - a)) by (apply Qmult_le_compat_r; lra).
  assert (lo * a <= s1 * a) by (apply Qmult_le_compat_r; lra).
  assert (s1 * a <= hi * a) by (apply Qmult_le_compat_r; lra).
  rewrite (Qmult_comm (1 - a)), (Qmult_comm a). split; lra.
Qed.

Lemma interp_loop_ok (cs : list Z) (ss : list Q) (tempo : Z) : forall m k,
  (k + m = length cs - 1)%nat -> length ss = length cs -> ss <> [] ->
  (nth k cs 0 < tempo)%Z ->
  exists p, interp_loop (seq k m) cs ss tempo = Ok p /\
    (forall lo hi, Forall (fun s => lo <= s <= hi) ss -> lo <= p <= hi).
Proof.
  induction m as [|m IH]; intros k Hk Hl Hne Ht; simpl.
  - destruct (list_last_ok ss Hne) as [y [Ey Iy]]. rewrite Ey. exists y. split; [reflexivity|].
    intros lo hi H. rewrite Forall_forall in H. now apply H.
  - assert (Hlen : (S k < length cs)%nat) by (destruct cs; simpl in *; lia).
    rewrite (list_get_nth cs k 0%Z), (list_get_nth cs (S k) 0%Z) by lia. cbn [bind].
    destruct (Z.leb_spec (nth k cs 0%Z) tempo); simpl;
      [destruct (Z.leb_spec tempo (nth (S k) cs 0%Z)); simpl|].
    + rewrite (list_get_nth ss k 0), (list_get_nth ss (S k) 0) by lia. cbn [bind].
      unfold pydiv. destruct (Qeq_bool _ 0) eqn:Ez.
      * apply Qeq_bool_iff in Ez. unfold Qeq in Ez. simpl in Ez. lia.
      * cbn [bind]. eexists. split; [reflexivity|]. intros lo hi Hr.
        rewrite Forall_forall in Hr. apply convex_range.
        -- apply interp_weight_range; lia.
        -- apply Hr, nth_In. lia.
        -- apply Hr, nth_In. lia.
    + apply IH; auto; lia.
    + lia.
Qed.

Lemma predict_from_curve (cal : TempoCalibrator) curve (tempo : Z) :
  smoothed_curve cal = Ok curve -> curve <> [] ->
  exists p, predict_seconds cal tempo = Ok p /\
    (forall lo hi, Forall (fun s => lo <= s <= hi) (map snd curve) -> lo <= p <= hi).
Proof.
  intros Ec Hne. unfold predict_seconds. rewrite Ec. cbn [bind].
  destruct curve as [|x rest]; [now contradiction Hne|].
  cbn [bind list_get nth_error map].
  destruct (Z.leb_spec tempo (fst x)).
  - exists (snd x). split; [reflexivity|]. intros lo hi Hf. inversion Hf; auto.
  - destruct (list_last_ok (fst x :: map fst rest)) as [cl [El _]]; [discriminate|].
    rewrite El. cbn [bind]. destruct (Z.leb_spec cl tempo).
    + destruct (list_last_ok (snd x :: map snd rest)) as [y [Ey Iy]]; [discriminate|].
      rewrite Ey. exists y. split; [reflexivity|]. intros lo hi Hf.
      rewrite Forall_forall in Hf. now apply Hf.
    + destruct (interp_loop_ok (fst x :: map fst rest) (snd x :: map snd rest) tempo
                  (length (fst x :: map fst rest) - 1) 0) as [p [Ep Hp]].
      * lia.
      * simpl. now rewrite !length_map.
      * discriminate.
      * simpl. lia.
      * exists p. split; [exact Ep|]. exact Hp.
Qed.

(** X13: [predict_seconds] raises [IndexError] exactly on a calibrator without bins, and returns a prediction otherwise. *)
Theorem predict_seconds_total (cal : TempoCalibrator) (tempo : Z) :
  (bins cal = [] -> predict_seconds cal tempo = Err IndexError) /\
  (bins cal <> [] -> exists p, predict_seconds cal tempo = Ok p).
Proof.
  split; [intros H; unfold predict_seconds, smoothed_curve; now rewrite H|].
  intros Hne. destruct (proj2 (smoothed_curve_facts cal) Hne) as [curve [Ec [_ [_ Lc]]]].
  destruct (predict_from_curve cal curve tempo Ec) as [p [Ep _]].
  - intros ->. simpl in Lc. destruct (bins cal); [contradiction|discriminate].
  - eauto.
Qed.

(** X14: If every bin's ema lies in [lo, hi], [lo <= anchor_fast_sec] and [anchor_slow_sec <= hi], every prediction of [predict_seconds] lies in [lo, hi]. *)
Theorem predict_seconds_within (cal : TempoCalibrator) (tempo : Z) (lo hi p : Q)
  (Hb : Forall (fun kb => lo <= ema_sec (snd kb) <= hi) (bins cal))
  (Haf : lo <= anchor_fast_sec cal) (Has : anchor_slow_sec cal <= hi)
  (Hp : predict_seconds cal tempo = Ok p) :
  lo <= p <= hi.
Proof.
  destruct (smoothed_curve cal) as [curve|] eqn:Ec;
    [|unfold predict_seconds in Hp; rewrite Ec in Hp; discriminate].
  destruct (smoothed_curve_inv cal curve Ec)
    as [vals [ws [fitted [_ [Hs [Ef [_ [Lw [_ [Hw Hv]]]]]]]]]].
  assert (Hne : curve <> []).
  { intros ->. unfold predict_seconds in Hp. rewrite Ec in Hp. discriminate. }
  destruct (predict_from_curve cal curve tempo Ec Hne) as [p' [Ep' Hr]].
  rewrite Hp in Ep'. inversion Ep'; subst p'. apply Hr. rewrite Hs.
  apply (fit_range_facts vals (Some (map inject_Z ws)) lo hi fitted).
  - split; [now rewrite length_map|]. apply Forall_map. eapply Forall_impl; [|exact Hw].
    intros w H. simpl in H. unfold Qlt. simpl. lia.
  - now apply Hv.
  - exact Ef.
Qed.

Lemma Qeq_bool_inject_Z (z : Z) : Qeq_bool (inject_Z z) 0 = true <-> z = 0%Z.
Proof. rewrite Qeq_bool_iff. unfold Qeq. simpl. lia. Qed.

(** X15: [_q_difficulty] raises [ZeroDivisionError] when [t_min = t_max], and otherwise returns a difficulty in [0, 1]. *)
Theorem q_difficulty_spec (h : DrillHub) (Nv t : Z) :
  (t_min h = t_max h -> q_difficulty h Nv t = Err ZeroDivisionError) /\
  (t_min h <> t_max h -> exists q, q_difficulty h Nv t = Ok q /\ 0 <= q <= 1).
Proof.
  assert (Hn : exists n, (if Z.ltb 1 (N_max h)
                          then pydiv (inject_Z (Nv - 1)) (inject_Z (N_max h - 1)) else Ok 0) = Ok n).
  { destruct (Z.ltb_spec 1 (N_max h)); [|eauto]. unfold pydiv.
    destruct (Qeq_bool _ 0) eqn:E; [apply Qeq_bool_inject_Z in E; lia|eauto]. }
  destruct Hn as [n En]. unfold q_difficulty. rewrite En. cbn [bind].
  split.
  - intros H. now apply (proj1 (norm_tempo_facts t (t_min h) (t_max h))) in H as ->.
  - intros H. destruct (proj1 (proj2 (norm_tempo_facts t (t_min h) (t_max h))) H) as [x [Ex _]].
    rewrite Ex. cbn [bind]. eexists. split; [reflexivity|]. apply clip01_facts.
Qed.

Lemma expected_fitness_facts (h : DrillHub) (Nv t : Z) (fe q : Q)
  (E : expected_fitness h Nv t = Ok (fe, q)) :
  0 <= fe <= 1 /\ 0 <= q <= 1.
Proof.
  unfold expected_fitness in E.
  destruct (dict_get _ _) as [cal|]; cbn [bind] in E; [|discriminate].
  destruct (predict_seconds _ _) as [pred|]; cbn [bind] in E; [|discriminate].
  destruct (q_difficulty h Nv t) as [q'|] eqn:Eq; cbn [bind] in E; [|discriminate].
  inversion E; subst; clear E. split.
  - destruct (pymin_le 1 (p_star h * (wN h * q + (1 - wN h) * speed_credit_from_seconds pred))).
    unfold pymax. destruct (Qltb _ _) eqn:Eb; [apply Qltb_true in Eb|apply Qltb_false in Eb]; lra.
  - unfold q_difficulty in Eq.
    destruct (if Z.ltb 1 (N_max h) then _ else _); cbn [bind] in Eq; [|discriminate].
    destruct (norm_tempo _ _ _); cbn [bind] in Eq; [|discriminate].
    inversion Eq. apply clip01_facts.
Qed.

(** X16: Both components of [_expected_fitness] (expected fitness and difficulty) lie in [0, 1]. *)
Theorem expected_fitness_range (h : DrillHub) (Nv t : Z) (fe q : Q)
  (E : expected_fitness h Nv t = Ok (fe, q)) :
  0 <= fe <= 1 /\ 0 <= q <= 1.
Proof. exact (expected_fitness_facts h Nv t fe q E). Qed.

Lemma infeasible_false p : infeasible p = false -> T_MIN_SEC <= p <= T_MAX_SEC.
Proof.
  unfold infeasible. intros H. apply orb_false_iff in H as [H1 H2].
  apply Qltb_false in H1, H2. lra.
Qed.

Lemma menu_tempos_entries h Nv Ns : forall ts ts0 menu out,
  In Nv Ns -> incl ts ts0 ->
  Forall (menu_entry h Ns ts0) menu -> menu_tempos h Nv ts menu = Ok out ->
  Forall (menu_entry h Ns ts0) out.
Proof.
  induction ts as [|t ts IH]; intros ts0 menu out HN Hts Hm E; simpl in E.
  - now inversion E; subst.
  - destruct (dict_get (calibrators h) Nv) as [cal|]; cbn [bind] in E; [|discriminate].
    destruct (predict_seconds cal t) as [pred|]; cbn [bind] in E; [|discriminate].
    destruct (infeasible pred) eqn:Ei.
    + apply (IH ts0 menu); auto. intros x Hx. apply Hts. now right.
    + destruct (expected_fitness h Nv t) as [[fe q]|] eqn:Ef; cbn [bind] in E; [|discriminate].
      refine (IH ts0 _ out HN _ _ E); [intros x Hx; apply Hts; now right|].
      apply Forall_app. split; [exact Hm|]. constructor; [|constructor].
      destruct (expected_fitness_facts h Nv t fe q Ef) as [Hfe Hq].
      unfold menu_entry; simpl. split; [exact HN|]. split; [apply Hts; now left|].
      split; [now apply infeasible_false|]. split; assumption.
Qed.

Lemma menu_Ns_entries h Ns0 : forall Ns menu out,
  incl Ns Ns0 -> Forall (menu_entry h Ns0 (tempos_with_rate_limits h)) menu ->
  menu_Ns h Ns menu = Ok out -> Forall (menu_entry h Ns0 (tempos_with_rate_limits h)) out.
Proof.
  induction Ns as [|Nv Ns IH]; intros menu out Hi Hm E; simpl in E.
  - now inversion E; subst.
  - destruct (menu_tempos h Nv (tempos_with_rate_limits h) menu) as [m'|] eqn:Em;
      cbn [bind] in E; [|discriminate].
    apply (IH m'); auto; [intros x Hx; apply Hi; now right|].
    refine (menu_tempos_entries h Nv Ns0 (tempos_with_rate_limits h) (tempos_with_rate_limits h)
              menu m' _ _ Hm Em).
    + apply Hi. now left.
    + intros x Hx; exact Hx.
Qed.

(** X17: [_make_menu] returns at most six candidates, each with its level in [N_set], its tempo among the rate-limited tempos, a feasible predicted time, and fitness and difficulty in [0, 1]. *)
Theorem make_menu_spec (h : DrillHub) (menu : list DrillCandidate)
  (E : make_menu h = Ok menu) :
  (length menu <= 6)%nat /\
  Forall (fun c => In (N c) (N_set h) /\ In (tempo c) (tempos_with_rate_limits h) /\
                   T_MIN_SEC <= pred_sec c <= T_MAX_SEC /\ 0 <= Fe c <= 1 /\ 0 <= diff c <= 1)
         menu.
Proof.
  unfold make_menu in E.
  destruct (menu_Ns h (N_set h) []) as [m|] eqn:Em; cbn [bind] in E; [|discriminate].
  cbn [bind] in E. set (l := sort_by _ m) in E.
  assert (Hl : forall c, In c l -> In c m) by (intros c Hc; exact (sort_by_In _ c m Hc)).
  clearbody l. assert (Hmenu : menu = firstn 6 l) by congruence. subst menu.
  split; [apply firstn_le_length|].
  pose proof (menu_Ns_entries h (N_set h) (N_set h) [] m (fun x Hx => Hx) (Forall_nil _) Em) as Hm.
  apply Forall_forall. intros c Hc. apply firstn_In_sub, Hl in Hc.
  rewrite Forall_forall in Hm. exact (Hm c Hc).
Qed.

(** X18: Without a last tempo, [_tempos_with_rate_limits] returns the active tempos unchanged. With last tempo [lt] and a non-negative step, it returns exactly the active tempos within the step of [lt], in their order, when there is at least one, and otherwise exactly the one-element list [[lt]]; there is none exactly when every active tempo is farther than the step from [lt]. *)
Theorem tempos_with_rate_limits_spec (h : DrillHub) :
  (last_tempo h = None -> tempos_with_rate_limits h = active_tempos h) /\
  (forall lt, last_tempo h = Some lt -> (0 <= max_bpm_step h)%Z ->
     let within := filter (fun t => Z.leb (Z.abs (t - lt)) (max_bpm_step h)) (active_tempos h) in
     ((within <> [] /\ tempos_with_rate_limits h = within) \/
      (within = [] /\ tempos_with_rate_limits h = [lt])) /\
     (within = [] <-> forall t', In t' (active_tempos h) -> (max_bpm_step h < Z.abs (t' - lt))%Z)).
Proof.
  unfold tempos_with_rate_limits. split; [intros ->; reflexivity|].
  intros lt Hlt Hs. cbv zeta.
  set (within := filter (fun t => Z.leb (Z.abs (t - lt)) (max_bpm_step h)) (active_tempos h)).
  rewrite Hlt.
  assert (Hf : filter (fun t => Z.leb (Z.abs (t - lt)) (max_bpm_step h) || Z.eqb t lt)
                      (active_tempos h) = within).
  { unfold within. apply filter_ext. intros t.
    destruct (Z.eqb_spec t lt) as [->|_]; [|apply orb_false_r].
    rewrite Z.sub_diag. simpl. apply Z.leb_le in Hs. now rewrite Hs. }
  rewrite Hf. split.
  - destruct within as [|a l]; [now right|]. left. split; [discriminate|reflexivity].
  - unfold within. split.
    + intros E t' Ht'. destruct (Z.ltb_spec (max_bpm_step h) (Z.abs (t' - lt))) as [|Hle]; auto.
      assert (Hi : In t' (filter (fun t => Z.leb (Z.abs (t - lt)) (max_bpm_step h)) (active_tempos h)))
        by (apply filter_In; split; [exact Ht'|now apply Z.leb_le]).
      rewrite E in Hi. destruct Hi.
    + intros Hall. destruct (filter _ _) as [|a l] eqn:E; [reflexivity|].
      assert (Ha : In a (a :: l)) by now left. rewrite <- E, filter_In, Z.leb_le in Ha.
      destruct Ha as [Ha Hb]. specialize (Hall a Ha). lia.
Qed.

(** X19: The bout statistics keep [0 <= n_items] and [0 <= sum_score <= n_items]: construction and [new_bout] establish it, [next] does not touch the statistics and [feedback] preserves it; so [avg_score] lies in [0, 1]. *)
Theorem bout_score_invariant :
  (forall F0 p0 w0 ts Ns tmin tmax Nmax h,
     DrillHub_new F0 p0 w0 ts Ns tmin tmax Nmax = Ok h -> bout_ok (bout h)) /\
  (forall h F0 ts, bout_ok (bout (new_bout h F0 ts))) /\
  (forall h r c h', next h r = Ok (c, h') -> bout h' = bout h) /\
  (forall h correct obs h', bout_ok (bout h) -> feedback h correct obs = Ok h' ->
     bout_ok (bout h')) /\
  (forall b, bout_ok b -> 0 <= avg_score b <= 1).
Proof.
  split; [|split; [|split; [|split]]].
  - intros F0 p0 w0 ts Ns tmin tmax Nmax h E. unfold DrillHub_new in E.
    destruct (map_res _ _); cbn [bind] in E; [|discriminate].
    inversion E; subst. unfold bout_ok. simpl. split; [lia|]. split; discriminate.
  - intros h F0 ts. unfold bout_ok. simpl. split; [lia|]. split; discriminate.
  - intros h r c h' E. unfold next in E.
    destruct (make_menu h); cbn [bind] in E; [|discriminate].
    destruct (sample_from_menu h _ r); cbn [bind] in E; [|discriminate].
    now inversion E.
  - intros h correct obs h' [Hn [H0 H1]] E. unfold feedback in E.
    destruct (last_candidate h) as [c|]; [|now inversion E; subst].
    destruct (dict_get _ _); cbn [bind] in E; [|discriminate].
    destruct (update _ _ _); cbn [bind] in E; [|discriminate].
    inversion E; subst; clear E. unfold bout_ok. simpl.
    destruct (speed_credit_facts obs obs) as [[Hc0 Hc1] _].
    rewrite inject_Z_plus. split; [lia|].
    change (inject_Z 1) with 1. destruct correct; split; lra.
  - intros b [Hn [H0 H1]]. unfold avg_score.
    destruct (Z.ltb_spec 0 (n_items b)) as [Hp|]; [|split; discriminate].
    assert (Hq : 0 < inject_Z (n_items b)) by (unfold Qlt; simpl; lia).
    split.
    + apply Qle_shift_div_l; [exact Hq|]. lra.
    + apply Qle_shift_div_r; [exact Hq|]. lra.
Qed.

(** X20: [feedback] on a hub with a last candidate raises [KeyError] when the candidate's level has no calibrator; when it returns, it keeps the calibrator keys, adds one item and the speed credit (0 for an incorrect answer) to the bout, and leaves every other field unchanged: [F], [p_star], [wN], [t_min], [t_max], [N_max], [N_set], [active_tempos], [last_candidate], [max_bpm_step], [allow_N_step], [last_N] and [last_tempo]. *)
Theorem feedback_spec (h h' : DrillHub) (c : DrillCandidate) (correct : bool) (obs : Q)
  (Hc : last_candidate h = Some c) :
  (~ In (N c) (dict_keys (calibrators h)) -> feedback h correct obs = Err KeyError) /\
  (feedback h correct obs = Ok h' ->
     dict_keys (calibrators h') = dict_keys (calibrators h) /\
     n_items (bout h') = (n_items (bout h) + 1)%Z /\
     sum_score (bout h') == sum_score (bout h) +
                            (if correct then speed_credit_from_seconds obs else 0) /\
     F h' = F h /\ p_star h' = p_star h /\ wN h' = wN h /\
     t_min h' = t_min h /\ t_max h' = t_max h /\ N_max h' = N_max h /\
     N_set h' = N_set h /\ active_tempos h' = active_tempos h /\
     last_candidate h' = last_candidate h /\
     max_bpm_step h' = max_bpm_step h /\ allow_N_step h' = allow_N_step h /\
     last_N h' = last_N h /\ last_tempo h' = last_tempo h).
Proof.
  unfold feedback. rewrite Hc. split.
  - intros Hk. now rewrite dict_get_missing.
  - intros E. destruct (dict_get _ _) as [cal|] eqn:Eg; cbn [bind] in E; [|discriminate].
    destruct (update _ _ _); cbn [bind] in E; [|discriminate].
    inversion E; subst; clear E. simpl.
    split; [apply dict_keys_set_in; exact (dict_get_key _ _ _ Eg)|].
    split; [reflexivity|]. split; [destruct correct; ring|].
    repeat split.
Qed.

Lemma py_round_int (x : Q) (z : Z) : x == inject_Z z -> py_round x = z.
Proof.
  intros Hx. unfold py_round. rewrite (Qfloor_comp _ _ Hx), Qfloor_Z.
  destruct (Qltb (x - inject_Z z) (1 # 2)) eqn:E; [reflexivity|].
  apply Qltb_false in E. rewrite Hx in E. lra.
Qed.

Lemma map_res_const {A B} (f : A -> result B) (y : B) : forall l,
  (forall x, In x l -> f x = Ok y) -> map_res f l = Ok (repeat y (length l)).
Proof.
  induction l as [|a l IH]; intros H; simpl; [reflexivity|].
  rewrite (H a (or_introl eq_refl)). cbn [bind]. rewrite IH by (intros; apply H; now right).
  reflexivity.
Qed.

Lemma dict_set_single {V} (t : Z) (b b' : V) : dict_set [(t, b)] t b' = [(t, b')].
Proof. simpl. now rewrite Z.eqb_refl. Qed.

Lemma fold_repeat_fresh (t : Z) : forall n,
  fold_left (fun d t => dict_set d t {| tempo_center := t; ema_sec := 5; count := 0 |})
            (repeat t n) [(t, fresh_bin t)] = [(t, fresh_bin t)].
Proof.
  induction n as [|n IH]; [reflexivity|]. cbn [repeat fold_left].
  rewrite dict_set_single. exact IH.
Qed.

Lemma flat_calibrator_default t : TempoCalibrator_default t t 10 = Ok (flat_calibrator t).
Proof.
  unfold TempoCalibrator_default, TempoCalibrator_new, bin_edges.
  rewrite (map_res_const _ t).
  - cbn [bind]. rewrite length_seq.
    change (repeat t (Z.to_nat 10)) with (t :: repeat t 9). cbn [fold_left].
    change (dict_set [] t _) with [(t, fresh_bin t)].
    rewrite fold_repeat_fresh. reflexivity.
  - intros i _. unfold pydiv. simpl. f_equal. apply py_round_int.
    rewrite Z.sub_diag, Z.mul_0_r. unfold Qdiv. simpl. ring.
Qed.

Lemma flat_calibrator_curve t :
  exists q, smoothed_curve (flat_calibrator t) = Ok [(t, q)] /\ q == 95 # 10.
Proof.
  unfold smoothed_curve. cbn [flat_calibrator bins dict_keys map fst sorted_Z fold_left insert_Z].
  cbn [map_res dict_get]. rewrite Z.eqb_refl. cbn [bind].
  eexists. split; [reflexivity|]. reflexivity.
Qed.

Lemma flat_calibrator_predict t tempo :
  exists p, predict_seconds (flat_calibrator t) tempo = Ok p /\ p == 95 # 10.
Proof.
  destruct (flat_calibrator_curve t) as [q [Ec Hq]].
  apply (predict_seconds_flat _ _ _ Ec); [discriminate| |reflexivity].
  simpl. rewrite andb_true_r. now apply Qeq_bool_iff.
Qed.

Lemma q_difficulty_flat (h : DrillHub) (Nv t : Z) :
  t_min h = t_max h -> q_difficulty h Nv t = Err ZeroDivisionError.
Proof.
  intros He. unfold q_difficulty.
  destruct (Z.ltb_spec 1 (N_max h)).
  - unfold pydiv at 1. destruct (Qeq_bool _ 0) eqn:E.
    + apply Qeq_bool_inject_Z in E. lia.
    + cbn [bind]. now rewrite (proj1 (norm_tempo_facts t _ _) He).
  - cbn [bind]. now rewrite (proj1 (norm_tempo_facts t _ _) He).
Qed.

Lemma min_Z_In l m : min_Z l = Ok m -> In m l.
Proof.
  destruct l as [|x l]; simpl; [discriminate|]. intros E. injection E as <-.
  assert (G : forall acc, In (fold_left (fun m y => if Z.ltb y m then y else m) l acc) (acc :: l)).
  { induction l as [|a l IH]; simpl; intros acc; [auto|].
    destruct (IH (if Z.ltb a acc then a else acc)) as [H|H];
      [destruct (Z.ltb a acc); auto|auto]. }
  apply G.
Qed.

Lemma min_Z_ok l : l <> [] -> exists m, min_Z l = Ok m /\ In m l.
Proof.
  intros H. destruct l as [|x l]; [congruence|]. eexists; split; [reflexivity|].
  now apply min_Z_In.
Qed.

Lemma list_or_nonempty l d : d <> [] -> list_or l d <> [].
Proof. destruct l as [[|x l]|]; simpl; auto; discriminate. Qed.

Lemma map_res_keys {V} (g : result V) : forall l out,
  map_res (fun k => c <- g ;; Ok (Z.of_nat k, c)) l = Ok out -> map fst out = map Z.of_nat l.
Proof.
  induction l as [|a l IH]; simpl; intros out E; [now inversion E|].
  destruct g as [c|]; cbn [bind] in E; [|discriminate].
  destruct (map_res _ l) as [ys|] eqn:Er; cbn [bind] in E; [|discriminate].
  inversion E; subst. simpl. f_equal. now apply IH.
Qed.

Lemma DrillHub_new_fields F0 p0 w0 ts Ns tmin tmax Nmax h :
  DrillHub_new F0 p0 w0 ts Ns tmin tmax Nmax = Ok h ->
  N_set h = list_or Ns [1; 2; 3; 4]%Z /\ active_tempos h = list_or ts [72; 84; 96]%Z /\
  t_min h = tmin /\ t_max h = tmax /\ N_max h = Nmax /\
  last_N h = None /\ last_tempo h = None /\ last_candidate h = None /\
  dict_keys (calibrators h) = map Z.of_nat (seq 1 (Z.to_nat Nmax)).
Proof.
  unfold DrillHub_new. destruct (map_res _ _) as [cals|] eqn:Em; cbn [bind]; [|discriminate].
  intros E. inversion E; subst; clear E. cbn.
  repeat (split; [reflexivity|]). now apply map_res_keys in Em.
Qed.

Lemma in_levels n Nmax : In n (map Z.of_nat (seq 1 (Z.to_nat Nmax))) <-> (1 <= n <= Nmax)%Z.
Proof.
  rewrite in_map_iff. split.
  - intros [k [<- Hk]]. apply in_seq in Hk. lia.
  - intros Hn. exists (Z.to_nat n). split; [lia|]. apply in_seq. lia.
Qed.

Lemma NoDup_map_of_nat l : NoDup l -> NoDup (map Z.of_nat l).
Proof.
  induction 1 as [|a l Ha Hl IH]; simpl; constructor; [|exact IH].
  rewrite in_map_iff. intros [b [Hb Hi]]. assert (b = a) by lia. congruence.
Qed.

(** Levels of a hub built with [t_min = t_max = t] all carry the flat calibrator. *)
Lemma DrillHub_new_flat F0 p0 w0 ts Ns t Nmax h Nv :
  DrillHub_new F0 p0 w0 ts Ns t t Nmax = Ok h -> (1 <= Nv <= Nmax)%Z ->
  dict_get (calibrators h) Nv = Ok (flat_calibrator t).
Proof.
  intros E Hn. destruct (DrillHub_new_fields _ _ _ _ _ _ _ _ _ E) as (_&_&_&_&_&_&_&_&Hk).
  destruct (dict_get_ok (calibrators h) Nv) as [cal Ec]; [rewrite Hk; now apply in_levels|].
  rewrite Ec. pose proof (DrillHub_new_calibrator _ _ _ _ _ _ _ _ _ _ _ E Ec) as Hd.
  rewrite flat_calibrator_default in Hd. now inversion Hd.
Qed.

Lemma menu_tempos_flat h Nv t : dict_get (calibrators h) Nv = Ok (flat_calibrator t) ->
  forall ts menu, menu_tempos h Nv ts menu = Ok menu.
Proof.
  intros Ec. induction ts as [|t0 ts IH]; intros menu; simpl; [reflexivity|].
  rewrite Ec. cbn [bind]. destruct (flat_calibrator_predict t t0) as [p [Ep Hp]].
  rewrite Ep. cbn [bind].
  replace (infeasible p) with true; [apply IH|].
  symmetry. unfold infeasible. apply orb_true_iff. right. apply Qltb_true.
  unfold T_MAX_SEC. rewrite Hp. reflexivity.
Qed.

Lemma menu_Ns_empty_ts h : forall Ns menu,
  tempos_with_rate_limits h = [] -> menu_Ns h Ns menu = Ok menu.
Proof.
  induction Ns as [|Nv Ns IH]; intros menu Ht; simpl; [reflexivity|].
  rewrite Ht. cbn [menu_tempos bind]. now apply IH.
Qed.

Lemma make_menu_entries h menu :
  make_menu h = Ok menu -> Forall (menu_entry h (N_set h) (tempos_with_rate_limits h)) menu.
Proof.
  unfold make_menu. intros E.
  destruct (menu_Ns h (N_set h) []) as [m|] eqn:Em; cbn [bind] in E; [|discriminate].
  set (l := sort_by _ m) in E.
  assert (Hl : forall c, In c l -> In c m) by (intros c Hc; exact (sort_by_In _ c m Hc)).
  clearbody l. assert (Hmenu : menu = firstn 6 l) by congruence. subst menu.
  pose proof (menu_Ns_entries h (N_set h) (N_set h) [] m (fun x Hx => Hx) (Forall_nil _) Em) as Hm.
  rewrite Forall_forall in *. intros c Hc. apply firstn_In_sub, Hl in Hc. exact (Hm c Hc).
Qed.

(** On a non-empty menu, [_sample_from_menu] returns a menu entry, and only
    one within [allow_N_step] of the last level: the replacement candidate is
    built with four arguments and raises. *)
Lemma sample_nonempty h menu r c :
  menu <> [] -> sample_from_menu h menu r = Ok c ->
  In c menu /\ (forall lN, last_N h = Some lN -> (Z.abs (N c - lN) <= allow_N_step h)%Z).
Proof.
  intros Hne E. destruct menu as [|c0 m]; [congruence|].
  unfold sample_from_menu in E. cbn iota beta zeta in E.
  set (ms := sort_by Fe (c0 :: m)) in E.
  assert (Hms : forall x, In x ms -> In x (c0 :: m)) by (intros x Hx; exact (sort_by_In _ x _ Hx)).
  clearbody ms.
  repeat match type of E with
  | context [list_get ms ?i] =>
      let x := fresh "x" in let Ex := fresh "Ex" in
      destruct (list_get ms i) as [x|] eqn:Ex; cbn [bind] in E; [|discriminate];
      apply list_get_In, Hms in Ex
  end.
  set (pick := if Qltb r (7 # 10) then _ else _) in E.
  assert (Hp : In pick (c0 :: m)) by (unfold pick; destruct (Qltb r _); [|destruct (Qltb r _)]; auto).
  clearbody pick. destruct (last_N h) as [lN|] eqn:HN.
  - destruct (Z.ltb_spec (allow_N_step h) (Z.abs (N pick - lN))).
    + destruct (dict_get _ lN); cbn [bind] in E; [|discriminate].
      destruct (predict_seconds _ _); cbn [bind] in E; [|discriminate].
      destruct (expected_fitness _ _ _); cbn [bind] in E; discriminate.
    + injection E as <-. split; [exact Hp|]. intros lN' HN'. injection HN' as <-. exact H.
  - injection E as <-. split; [exact Hp|]. discriminate.
Qed.

(** X21: A constructed hub has exactly one calibrator per level 1..N_max, and a non-empty level set and tempo list. *)
Theorem DrillHub_new_levels F0 p0 w0 ts Ns tmin tmax Nmax h
  (E : DrillHub_new F0 p0 w0 ts Ns tmin tmax Nmax = Ok h) :
  (forall n, In n (dict_keys (calibrators h)) <-> (1 <= n <= Nmax)%Z) /\
  NoDup (dict_keys (calibrators h)) /\ N_set h <> [] /\ active_tempos h <> [].
Proof.
  destruct (DrillHub_new_fields _ _ _ _ _ _ _ _ _ E) as (HN&HT&_&_&_&_&_&_&Hk).
  rewrite Hk, HN, HT. split; [intros n; apply in_levels|].
  split; [apply NoDup_map_of_nat, seq_NoDup|].
  split; apply list_or_nonempty; discriminate.
Qed.

(** X22: If a level of [N_set] has no calibrator and the rate-limited tempo list is non-empty, [next] raises; when that level comes first in [N_set], the exception is [KeyError]. *)
Theorem next_missing_level_raises h r Nv
  (HN : In Nv (N_set h)) (Hk : ~ In Nv (dict_keys (calibrators h)))
  (Ht : tempos_with_rate_limits h <> []) :
  (exists e, next h r = Err e) /\
  (forall rest, N_set h = Nv :: rest -> next h r = Err KeyError).
Proof.
  destruct (tempos_with_rate_limits h) as [|t ts] eqn:Et; [congruence|].
  assert (G : forall Ns menu, In Nv Ns -> exists e, menu_Ns h Ns menu = Err e).
  { induction Ns as [|n Ns IH]; intros menu Hi; [destruct Hi|]. simpl. rewrite Et.
    destruct (menu_tempos h n (t :: ts) menu) as [m'|e] eqn:Em; cbn [bind]; [|eauto].
    destruct Hi as [<-|Hi]; [|eauto].
    simpl in Em. rewrite (dict_get_missing _ _ Hk) in Em. discriminate. }
  unfold next, make_menu. split.
  - destruct (G (N_set h) [] HN) as [e Ee]. rewrite Ee. cbn [bind]. eauto.
  - intros rest Hr. rewrite Hr. simpl. rewrite Et. simpl.
    rewrite (dict_get_missing _ _ Hk). reflexivity.
Qed.

(** X23: A hub constructed with [t_min = t_max] and levels within 1..N_max always raises [ZeroDivisionError] on [next]: every prediction (9.5 s) is infeasible, the menu is empty, and the fallback divides by [t_max - t_min]. *)
Theorem next_flat_range_raises F0 p0 w0 ts Ns t Nmax h r
  (E : DrillHub_new F0 p0 w0 ts Ns t t Nmax = Ok h)
  (HNs : Forall (fun n => 1 <= n <= Nmax)%Z (list_or Ns [1; 2; 3; 4]%Z)) :
  next h r = Err ZeroDivisionError.
Proof.
  destruct (DrillHub_new_fields _ _ _ _ _ _ _ _ _ E) as (HN&HT&Hmin&Hmax&_&HlN&Hlt&_&_).
  rewrite <- HN in HNs. rewrite Forall_forall in HNs.
  assert (G : forall Ns menu, incl Ns (N_set h) -> menu_Ns h Ns menu = Ok menu).
  { induction Ns0 as [|n Ns0 IH]; intros menu Hi; simpl; [reflexivity|].
    rewrite (menu_tempos_flat h n t (DrillHub_new_flat _ _ _ _ _ _ _ _ _ E (HNs n (Hi n (or_introl eq_refl))))).
    cbn [bind]. apply IH. intros x Hx. apply Hi. now right. }
  unfold next, make_menu. rewrite (G (N_set h) [] (fun x Hx => Hx)). cbn [bind].
  change (firstn 6 (sort_by (fun c => Qabs (Fe c - F h)) [])) with (@nil DrillCandidate).
  cbn [sample_from_menu]. rewrite HlN, Hlt.
  destruct (min_Z_ok (N_set h)) as [n [En In]]; [rewrite HN; apply list_or_nonempty; discriminate|].
  destruct (min_Z_ok (active_tempos h)) as [t0 [Et0 _]]; [rewrite HT; apply list_or_nonempty; discriminate|].
  rewrite En, Et0. cbn [bind].
  rewrite (DrillHub_new_flat _ _ _ _ _ _ _ _ _ E (HNs n In)). cbn [bind].
  destruct (flat_calibrator_predict t t0) as [p [Ep _]]. rewrite Ep. cbn [bind].
  unfold expected_fitness. rewrite (DrillHub_new_flat _ _ _ _ _ _ _ _ _ E (HNs n In)). cbn [bind]. rewrite Ep.
  cbn [bind]. rewrite q_difficulty_flat by congruence. reflexivity.
Qed.

(** X24: Without a last tempo and with no active tempos (for instance after [new_bout(tempos=[])]), [next] raises [ValueError]. *)
Theorem next_no_tempos_raises h r
  (Hlt : last_tempo h = None) (HT : active_tempos h = []) :
  next h r = Err ValueError.
Proof.
  assert (Ht : tempos_with_rate_limits h = []) by (unfold tempos_with_rate_limits; now rewrite Hlt).
  unfold next, make_menu. rewrite (menu_Ns_empty_ts h (N_set h) [] Ht). cbn [bind].
  change (firstn 6 (sort_by (fun c => Qabs (Fe c - F h)) [])) with (@nil DrillCandidate).
  cbn [sample_from_menu]. rewrite Hlt, HT.
  destruct (last_N h); [reflexivity|]. destruct (N_set h); reflexivity.
Qed.

(** X25: Without a last level and tempo, a candidate returned by [next] has its level in [N_set] and its tempo among the active tempos; the hub records it as last candidate, level and tempo, and keeps its calibrators and bout statistics. *)
Theorem next_first_pick h r c h'
  (HlN : last_N h = None) (Hlt : last_tempo h = None)
  (E : next h r = Ok (c, h')) :
  In (N c) (N_set h) /\ In (tempo c) (active_tempos h) /\
  last_candidate h' = Some c /\ last_N h' = Some (N c) /\ last_tempo h' = Some (tempo c) /\
  calibrators h' = calibrators h /\ bout h' = bout h.
Proof.
  unfold next in E.
  destruct (make_menu h) as [menu|] eqn:Em; cbn [bind] in E; [|discriminate].
  destruct (sample_from_menu h menu r) as [c'|] eqn:Es; cbn [bind] in E; [|discriminate].
  injection E as <- <-. cbn.
  enough (HI : In (N c') (N_set h) /\ In (tempo c') (active_tempos h))
    by (destruct HI; repeat split; assumption).
  - destruct menu as [|c0 m].
    + cbn [sample_from_menu] in Es. rewrite HlN, Hlt in Es.
      destruct (min_Z (N_set h)) as [n|] eqn:En; cbn [bind] in Es; [|discriminate].
      destruct (min_Z (active_tempos h)) as [t0|] eqn:Et; cbn [bind] in Es; [|discriminate].
      destruct (dict_get _ n); cbn [bind] in Es; [|discriminate].
      destruct (predict_seconds _ _); cbn [bind] in Es; [|discriminate].
      destruct (expected_fitness _ _ _); cbn [bind] in Es; [|discriminate].
      injection Es as <-. simpl. split; [apply min_Z_In with (1 := En)|].
      apply min_Z_In with (1 := Et).
    + destruct (sample_nonempty h (c0 :: m) r c' ltac:(discriminate) Es) as [Hc _].
      pose proof (make_menu_entries h _ Em) as Hm. rewrite Forall_forall in Hm.
      destruct (Hm c' Hc) as (H1&H2&_). split; [exact H1|].
      unfold tempos_with_rate_limits in H2. now rewrite Hlt in H2.
Qed.

(** X26: With a last level [lN] and a non-negative [allow_N_step], any candidate [next] returns is within [allow_N_step] of [lN]: the replacement branch of the level limiter never returns. *)
Theorem next_level_step_bounded h r c h' lN
  (HlN : last_N h = Some lN) (Hs : (0 <= allow_N_step h)%Z)
  (E : next h r = Ok (c, h')) :
  (Z.abs (N c - lN) <= allow_N_step h)%Z /\ last_N h' = Some (N c).
Proof.
  unfold next in E.
  destruct (make_menu h) as [menu|] eqn:Em; cbn [bind] in E; [|discriminate].
  destruct (sample_from_menu h menu r) as [c'|] eqn:Es; cbn [bind] in E; [|discriminate].
  injection E as <- <-. split; [|reflexivity].
  destruct menu as [|c0 m].
  - cbn [sample_from_menu] in Es. rewrite HlN in Es. cbn [bind] in Es.
    destruct (match last_tempo h with Some t => Ok t | None => min_Z (active_tempos h) end);
      cbn [bind] in Es; [|discriminate].
    destruct (dict_get _ lN); cbn [bind] in Es; [|discriminate].
    destruct (predict_seconds _ _); cbn [bind] in Es; [|discriminate].
    destruct (expected_fitness _ _ _); cbn [bind] in Es; [|discriminate].
    injection Es as <-. simpl. rewrite Z.sub_diag. simpl. exact Hs.
  - exact (proj2 (sample_nonempty h (c0 :: m) r c' ltac:(discriminate) Es) lN HlN).
Qed.

Lemma Forall_of_forallb {A} (P : A -> Prop) (f : A -> bool) (l : list A) :
  (forall x, f x = true -> P x) -> forallb f l = true -> Forall P l.
Proof.
  intros Hf Hb. apply Forall_forall. intros x Hx. apply Hf.
  rewrite forallb_forall in Hb. auto.
Qed.

Lemma Qrange_of_bool lo hi x : Qle_bool lo x && Qle_bool x hi = true -> lo <= x <= hi.
Proof. intros H. apply andb_true_iff in H. destruct H. split; now apply Qle_bool_iff. Qed.

Lemma fit_preserves_weighted_sum_witness :
  fit [1; 2; 0] (Some [1; 1; 1]) = Ok fit_1_2_0 /\ wsum [1; 1; 1] fit_1_2_0 == wsum [1; 1; 1] [1; 2; 0].
Proof.
  assert (Hf : fit [1; 2; 0] (Some [1; 1; 1]) = Ok fit_1_2_0) by (vm_compute; reflexivity).
  split; [exact Hf|].
  apply (fit_preserves_weighted_sum [1; 2; 0] [1; 1; 1] fit_1_2_0); [reflexivity| |exact Hf].
  repeat constructor.
Defined.

Lemma fit_within_input_range_witness :
  Forall (fun y => 0 <= y <= 10) (unwrap_or [] (fit [0; 1; 5; 10] None)).
Proof.
  apply (fit_within_input_range [0; 1; 5; 10] None 0 10); [exact I| |vm_compute; reflexivity].
  repeat constructor; qcheck.
Defined.

Lemma update_ema_within_witness :
  Forall (fun kb => 1 <= ema_sec (snd kb) <= 9)
         (bins (unwrap_or empty_calibrator (update cold_calibrator 100 3))).
Proof.
  apply (update_ema_within cold_calibrator _ 100 3 1 9).
  - split; qcheck.
  - split; qcheck.
  - apply (Forall_of_forallb _ (fun kb => Qle_bool 1 (ema_sec (snd kb)) && Qle_bool (ema_sec (snd kb)) 9));
      [intros x; apply Qrange_of_bool|vm_compute; reflexivity].
  - vm_compute. reflexivity.
Defined.

Lemma predict_seconds_within_witness :
  8 # 10 <= unwrap_or 0 (predict_seconds cold_calibrator 100) <= 95 # 10.
Proof.
  apply (predict_seconds_within cold_calibrator 100).
  - apply (Forall_of_forallb _ (fun kb => Qle_bool (8 # 10) (ema_sec (snd kb))
                                          && Qle_bool (ema_sec (snd kb)) (95 # 10)));
      [intros x; apply Qrange_of_bool|vm_compute; reflexivity].
  - qcheck.
  - qcheck.
  - vm_compute. reflexivity.
Defined.

Lemma expected_fitness_range_witness :
  0 <= fst (unwrap_or (0, 0) (expected_fitness cold_hub 1 100)) <= 1 /\
  0 <= snd (unwrap_or (0, 0) (expected_fitness cold_hub 1 100)) <= 1.
Proof. apply (expected_fitness_range cold_hub 1 100). vm_compute. reflexivity. Defined.

Lemma make_menu_spec_witness :
  (length (unwrap_or [] (make_menu cold_hub)) <= 6)%nat /\
  Forall (fun c => In (N c) (N_set cold_hub) /\ In (tempo c) (tempos_with_rate_limits cold_hub) /\
                   T_MIN_SEC <= pred_sec c <= T_MAX_SEC /\ 0 <= Fe c <= 1 /\ 0 <= diff c <= 1)
         (unwrap_or [] (make_menu cold_hub)).
Proof. apply make_menu_spec. vm_compute. reflexivity. Defined.

Lemma feedback_spec_witness :
  n_items (bout (unwrap_or empty_hub (feedback hub_after_next true (3 # 2))))
  = (n_items (bout hub_after_next) + 1)%Z.
Proof.
  apply (feedback_spec hub_after_next (unwrap_or empty_hub (feedback hub_after_next true (3 # 2)))
           (match last_candidate hub_after_next with Some c => c | None => empty_candidate end)
           true (3 # 2)); vm_compute; reflexivity.
Defined.

Lemma DrillHub_new_levels_witness :
  In 8%Z (dict_keys (calibrators cold_hub)) /\ ~ In 9%Z (dict_keys (calibrators cold_hub)).
Proof.
  destruct (DrillHub_new_levels (1 # 2) (85 # 100) (6 # 10) None None 60 200 8 cold_hub)
    as [Hk _]; [vm_compute; reflexivity|].
  split; [apply Hk; lia|]. intros H. apply Hk in H. lia.
Defined.

Lemma next_missing_level_raises_witness : next hub_level_9 (1 # 2) = Err KeyError.
Proof.
  assert (H1 : In 9%Z (N_set hub_level_9)) by (vm_compute; now left).
  assert (H2 : ~ In 9%Z (dict_keys (calibrators hub_level_9))) by (vm_compute; intuition discriminate).
  assert (H3 : tempos_with_rate_limits hub_level_9 <> []) by (vm_compute; discriminate).
  exact (proj2 (next_missing_level_raises hub_level_9 (1 # 2) 9 H1 H2 H3) [] eq_refl).
Defined.

Lemma next_flat_range_raises_witness :
  next (unwrap_or empty_hub (DrillHub_new (1 # 2) (85 # 100) (6 # 10) None None 100 100 8)) (1 # 2)
  = Err ZeroDivisionError.
Proof.
  apply (next_flat_range_raises (1 # 2) (85 # 100) (6 # 10) None None 100 8).
  - vm_compute. reflexivity.
  - simpl. repeat constructor; lia.
Defined.

Lemma next_no_tempos_raises_witness : next (new_bout cold_hub None (Some [])) (1 # 2) = Err ValueError.
Proof. apply next_no_tempos_raises; reflexivity. Defined.

Lemma next_first_pick_witness :
  In (N (fst first_next)) (N_set cold_hub) /\ In (tempo (fst first_next)) (active_tempos cold_hub).
Proof.
  destruct (next_first_pick cold_hub (1 # 2) (fst first_next) (snd first_next))
    as (H1 & H2 & _); [vm_compute; reflexivity ..|].
  split; assumption.
Defined.

Lemma next_level_step_bounded_witness :
  (Z.abs (N (fst (unwrap_or (empty_candidate, empty_hub) (next hub_after_next (1 # 2))))
          - N (fst first_next)) <= 1)%Z.
Proof.
  apply (next_level_step_bounded hub_after_next (1 # 2)
           (fst (unwrap_or (empty_candidate, empty_hub) (next hub_after_next (1 # 2))))
           (snd (unwrap_or (empty_candidate, empty_hub) (next hub_after_next (1 # 2))))
           (N (fst first_next))); qcheck.
Defined.
